(** * A free-look camera and its frame loop (src/main.cpp)

    Shallow embedding of the viewer's camera controller ([mouse_callback],
    [processInput]), of the frame loop of [main] and of the shader file
    loader [Shader::readFile], with the view matrix, the shader
    diagnostics, [checkOpenGLError], [framebuffer_size_callback] and the
    vertex layout of the quad.

    Numbers.  The program computes with C++ [float] and [double].  The
    file reads them in two ways.

    In the real-number reading both are [R]: every arithmetic operation
    is the exact one, conversions between [double] and [float] are the
    identity, and [cos], [sin] and [sqrt] are the mathematical functions.
    Statements about trigonometry, about the clamp and about which
    variables a handler writes are made in this reading; rounding,
    overflow and NaN are outside it.

    In the binary32 reading ([Module fp], [Module binary32]) [float] is
    IEEE 754 binary32 and [double] binary64, with round to nearest even
    and the conversions the C++ types force.  Statements that rounding
    decides (exact sums, cancellation, the first pointer sample, NaN) are
    made in this reading. *)

From Stdlib Require Import QArith SpecFloat.
From Stdlib Require Import Reals Lra Lia ZArith NArith List String Bool.
From Stdlib Require DecimalString.
Import ListNotations.
Local Open Scope R_scope.

(** ** The part of GLM the program uses *)

Module glm.

Record vec3 : Type := mk_vec3 { x : R; y : R; z : R }.

(** [vec3 + vec3], [vec3 - vec3], [float * vec3], [vec3 * float]. *)
Definition add (a b : vec3) : vec3 := mk_vec3 (x a + x b) (y a + y b) (z a + z b).
Definition sub (a b : vec3) : vec3 := mk_vec3 (x a - x b) (y a - y b) (z a - z b).
Definition smul (s : R) (v : vec3) : vec3 := mk_vec3 (s * x v) (s * y v) (s * z v).
Definition muls (v : vec3) (s : R) : vec3 := mk_vec3 (x v * s) (y v * s) (z v * s).

(** [glm::dot]: the products are summed left to right. *)
Definition dot (a b : vec3) : R := x a * x b + y a * y b + z a * z b.

(** [glm::cross]. *)
Definition cross (a b : vec3) : vec3 :=
  mk_vec3 (y a * z b - y b * z a)
          (z a * x b - z b * x a)
          (x a * y b - x b * y a).

(** [glm::length]. *)
Definition length (v : vec3) : R := sqrt (dot v v).

(** [glm::inversesqrt] and [glm::normalize]: the vector is multiplied by
    the inverse square root of its squared length. *)
Definition inversesqrt (a : R) : R := 1 / sqrt a.
Definition normalize (v : vec3) : vec3 := muls v (inversesqrt (dot v v)).

(** [glm::radians]: degrees times pi/180. *)
Definition radians (degrees : R) : R := degrees * (PI / 180).

(** [glm::max], [glm::min] and [glm::clamp], with the comparisons GLM
    writes: [max a b = (a < b) ? b : a], [min a b = (b < a) ? b : a],
    [clamp v lo hi = min (max v lo) hi]. *)
Definition max (a b : R) : R := if Rlt_dec a b then b else a.
Definition min (a b : R) : R := if Rlt_dec b a then b else a.
Definition clamp (v minVal maxVal : R) : R := min (max v minVal) maxVal.

End glm.

(** ** Constants and the file-scope camera variables *)

Definition WINDOW_WIDTH : Z := 800.
Definition WINDOW_HEIGHT : Z := 600.

(** The globals of lines 20-27, as one record threaded through the
    callbacks. *)
Record Globals : Type := mk_globals {
  cameraPos : glm.vec3;
  cameraFront : glm.vec3;
  cameraUp : glm.vec3;
  cameraSpeed : R;
  yaw : R;
  pitch : R;
  lastX : R;
  lastY : R;
  firstMouse : bool;
  sensitivity : R
}.

(** Their initialisers.  [WINDOW_WIDTH / 2] is an integer division. *)
Definition initial_globals : Globals :=
  {| cameraPos := glm.mk_vec3 0 0 3;
     cameraFront := glm.mk_vec3 0 0 (-1);
     cameraUp := glm.mk_vec3 0 1 0;
     cameraSpeed := 0.03;
     yaw := -90;
     pitch := 0;
     lastX := IZR (WINDOW_WIDTH / 2);
     lastY := IZR (WINDOW_HEIGHT / 2);
     firstMouse := true;
     sensitivity := 0.1 |}.

(** ** [mouse_callback] *)

(** Lines 168-172: on the first sample the last position is overwritten
    with the current one and the flag is cleared. *)
Definition take_first_sample (g : Globals) (xpos ypos : R) : Globals :=
  if firstMouse g then
    {| cameraPos := cameraPos g; cameraFront := cameraFront g;
       cameraUp := cameraUp g; cameraSpeed := cameraSpeed g;
       yaw := yaw g; pitch := pitch g;
       lastX := xpos; lastY := ypos; firstMouse := false;
       sensitivity := sensitivity g |}
  else g.

(** Lines 174-175: the offsets the call adds to yaw and pitch. *)
Definition xOffset (g : Globals) (xpos ypos : R) : R :=
  (xpos - lastX (take_first_sample g xpos ypos)) * sensitivity g.
Definition yOffset (g : Globals) (xpos ypos : R) : R :=
  (lastY (take_first_sample g xpos ypos) - ypos) * sensitivity g.

(** Lines 184-187: the direction of a yaw and a pitch given in degrees,
    before normalisation. *)
Definition direction (yaw_deg pitch_deg : R) : glm.vec3 :=
  glm.mk_vec3 (cos (glm.radians yaw_deg) * cos (glm.radians pitch_deg))
          (sin (glm.radians pitch_deg))
          (sin (glm.radians yaw_deg) * cos (glm.radians pitch_deg)).

Definition mouse_callback (g : Globals) (xpos ypos : R) : Globals :=
  let dx := xOffset g xpos ypos in
  let dy := yOffset g xpos ypos in
  let yaw' := yaw g + dx in
  let pitch' := glm.clamp (pitch g + dy) (-89) 89 in
  {| cameraPos := cameraPos g;
     cameraFront := glm.normalize (direction yaw' pitch');
     cameraUp := cameraUp g;
     cameraSpeed := cameraSpeed g;
     yaw := yaw';
     pitch := pitch';
     lastX := xpos;
     lastY := ypos;
     firstMouse := false;
     sensitivity := sensitivity g |}.

(** A sequence of pointer-move events, in arrival order, and the state
    after each of them. *)
Definition pointer_moves (g : Globals) (evs : list (R * R)) : Globals :=
  fold_left (fun g' p => mouse_callback g' (fst p) (snd p)) evs g.

Fixpoint states_after (g : Globals) (evs : list (R * R)) : list Globals :=
  match evs with
  | [] => []
  | p :: evs' =>
      let g' := mouse_callback g (fst p) (snd p) in
      g' :: states_after g' evs'
  end.

(** The horizontal offsets the calls of a sequence compute, one per event. *)
Fixpoint xOffsets (g : Globals) (evs : list (R * R)) : list R :=
  match evs with
  | [] => []
  | p :: evs' =>
      xOffset g (fst p) (snd p)
        :: xOffsets (mouse_callback g (fst p) (snd p)) evs'
  end.

Definition Rsum (l : list R) : R := fold_right Rplus 0 l.

(** ** The window and [processInput] *)

(** What the program reads and writes of the GLFW window: the close flag
    and the state of the five keys it queries with [glfwGetKey]. *)
Record Window : Type := mk_window {
  shouldClose : bool;
  keyEscape : bool;
  keyW : bool;
  keyS : bool;
  keyA : bool;
  keyD : bool
}.

Definition glfwSetWindowShouldClose (w : Window) (v : bool) : Window :=
  {| shouldClose := v; keyEscape := keyEscape w; keyW := keyW w;
     keyS := keyS w; keyA := keyA w; keyD := keyD w |}.

Definition set_cameraPos (g : Globals) (p : glm.vec3) : Globals :=
  {| cameraPos := p; cameraFront := cameraFront g; cameraUp := cameraUp g;
     cameraSpeed := cameraSpeed g; yaw := yaw g; pitch := pitch g;
     lastX := lastX g; lastY := lastY g; firstMouse := firstMouse g;
     sensitivity := sensitivity g |}.

(** Lines 196-204: the four movement keys, tested in the order W, S, A, D;
    each one that is down moves the position. *)
Definition move_camera (w : Window) (g : Globals) : Globals :=
  let velocity := cameraSpeed g in
  let g1 := if keyW w
            then set_cameraPos g (glm.add (cameraPos g) (glm.smul velocity (cameraFront g)))
            else g in
  let g2 := if keyS w
            then set_cameraPos g1 (glm.sub (cameraPos g1) (glm.smul velocity (cameraFront g1)))
            else g1 in
  let g3 := if keyA w
            then set_cameraPos g2
                   (glm.sub (cameraPos g2)
                        (glm.muls (glm.normalize (glm.cross (cameraFront g2) (cameraUp g2))) velocity))
            else g2 in
  if keyD w
  then set_cameraPos g3
         (glm.add (cameraPos g3)
              (glm.muls (glm.normalize (glm.cross (cameraFront g3) (cameraUp g3))) velocity))
  else g3.

Definition processInput (w : Window) (g : Globals) : Window * Globals :=
  let w' := if keyEscape w then glfwSetWindowShouldClose w true else w in
  (w', move_camera w g).

(** [n] consecutive ticks with the same keys down. *)
Fixpoint ticks (n : nat) (w : Window) (g : Globals) : Globals :=
  match n with
  | O => g
  | S n' => ticks n' w (snd (processInput w g))
  end.

(** ** The frame loop of [main] *)

(** The events [glfwPollEvents] can deliver to this program: a cursor
    position (passed to [mouse_callback]), a key going down or up, a
    request to close the window, a new framebuffer size (passed to
    [framebuffer_size_callback]). *)
Inductive Key : Type := KEY_ESCAPE | KEY_W | KEY_S | KEY_A | KEY_D.

Inductive Event : Type :=
| CursorPos (xpos ypos : R)
| KeyChange (k : Key) (pressed : bool)
| CloseRequest
| FramebufferSize (width height : Z).

Inductive DrawMode : Type := GL_TRIANGLES.

(** The calls the loop makes on the graphics context, in program order.
    A matrix upload is recorded with the arguments its matrix is built
    from. *)
Inductive GlCall : Type :=
| glViewport (x y width height : Z)
| glClearColor (r g b a : R)
| glClear
| glUseProgram
| setMat4_view (eye center up : glm.vec3)
| setMat4_projection (fovy aspect zNear zFar : R)
| setMat4_model (translation : glm.vec3)
| glBindVertexArray
| glDrawArrays (mode : DrawMode) (first count : Z)
| glfwSwapBuffers.

Definition is_draw (c : GlCall) : bool :=
  match c with glDrawArrays _ _ _ => true | _ => false end.

Definition set_key (w : Window) (k : Key) (v : bool) : Window :=
  match k with
  | KEY_ESCAPE => {| shouldClose := shouldClose w; keyEscape := v; keyW := keyW w;
                     keyS := keyS w; keyA := keyA w; keyD := keyD w |}
  | KEY_W => {| shouldClose := shouldClose w; keyEscape := keyEscape w; keyW := v;
                keyS := keyS w; keyA := keyA w; keyD := keyD w |}
  | KEY_S => {| shouldClose := shouldClose w; keyEscape := keyEscape w; keyW := keyW w;
                keyS := v; keyA := keyA w; keyD := keyD w |}
  | KEY_A => {| shouldClose := shouldClose w; keyEscape := keyEscape w; keyW := keyW w;
                keyS := keyS w; keyA := v; keyD := keyD w |}
  | KEY_D => {| shouldClose := shouldClose w; keyEscape := keyEscape w; keyW := keyW w;
                keyS := keyS w; keyA := keyA w; keyD := v |}
  end.

(** The program's state between two statements of the loop. *)
Record World : Type := mk_world { window : Window; globals : Globals }.

Definition dispatch (e : Event) (s : World) : World * list GlCall :=
  match e with
  | CursorPos xpos ypos =>
      (mk_world (window s) (mouse_callback (globals s) xpos ypos), [])
  | KeyChange k v => (mk_world (set_key (window s) k v) (globals s), [])
  | CloseRequest => (mk_world (glfwSetWindowShouldClose (window s) true) (globals s), [])
  | FramebufferSize width height => (s, [glViewport 0 0 width height])
  end.

Fixpoint glfwPollEvents (evs : list Event) (s : World) : World * list GlCall :=
  match evs with
  | [] => (s, [])
  | e :: evs' =>
      let (s1, c1) := dispatch e s in
      let (s2, c2) := glfwPollEvents evs' s1 in
      (s2, c1 ++ c2)
  end.

(** Lines 259-278: one pass through the loop body; [evs] is what the
    event queue holds when [glfwPollEvents] is reached. *)
Definition loop_body (evs : list Event) (s : World) : World * list GlCall :=
  let (w1, g1) := processInput (window s) (globals s) in
  let calls :=
    [ glClearColor 0.5 0.5 0.5 0.5;
      glClear;
      glUseProgram;
      setMat4_view (cameraPos g1) (glm.add (cameraPos g1) (cameraFront g1)) (cameraUp g1);
      setMat4_projection (glm.radians 45) (IZR WINDOW_WIDTH / IZR WINDOW_HEIGHT) 0.1 100;
      setMat4_model (glm.mk_vec3 2 0 (-3));
      glBindVertexArray;
      glDrawArrays GL_TRIANGLES 0 6;
      glfwSwapBuffers ] in
  let (s2, c2) := glfwPollEvents evs (mk_world w1 g1) in
  (s2, calls ++ c2).

(** Line 258: the loop, run over the event batches of its successive
    iterations.  It stops at the first test that finds the close flag set;
    when the batches run out the run observed so far is returned. *)
Fixpoint main_loop (frames : list (list Event)) (s : World) : World * list GlCall :=
  match frames with
  | [] => (s, [])
  | evs :: frames' =>
      if shouldClose (window s) then (s, [])
      else
        let (s1, c1) := loop_body evs s in
        let (s2, c2) := main_loop frames' s1 in
        (s2, c1 ++ c2)
  end.

(** The two states of the loop, read off the close flag at the loop test. *)
Inductive LoopState : Type := Running | Closing.

Definition loop_state (s : World) : LoopState :=
  if shouldClose (window s) then Closing else Running.

(** A freshly created window: no close request, no key down. *)
Definition initial_window : Window := mk_window false false false false false false.

Definition initial_world : World := mk_world initial_window initial_globals.

(** ** [Shader::readFile] and the constructor of [Shader] *)

(** The files that can be opened, with their contents. *)
Definition FileSystem : Type := string -> option string.

(** What a call may throw. *)
Inductive Exception : Type := ios_base_failure (what : string).

Definition Throws (A : Type) : Type := (Exception + A)%type.

Definition ret {A : Type} (a : A) : Throws A := inr a.
Definition throw {A : Type} (e : Exception) : Throws A := inl e.
Definition bind {A B : Type} (m : Throws A) (k : A -> Throws B) : Throws B :=
  match m with
  | inl e => inl e
  | inr a => k a
  end.

Notation "'do' a <- m ; k" := (bind m (fun a => k))
  (at level 10, a name, m at level 100, k at level 200).

(** The exception of line 110. *)
Definition read_failure (filepath : string) : Exception :=
  ios_base_failure ("Failed to read shader file: " ++ filepath)%string.

(** Lines 103-113. *)
Definition readFile (fs : FileSystem) (filepath : string) : Throws string :=
  match fs filepath with
  | Some contents => ret contents
  | None => throw (read_failure filepath)
  end.

Inductive ShaderType : Type := GL_VERTEX_SHADER | GL_FRAGMENT_SHADER.

(** The two shader sources [main] asks for. *)
Definition VERTEX_SHADER_PATH : string := "res/shaders/vertex_shader.glsl".
Definition FRAGMENT_SHADER_PATH : string := "res/shaders/fragment_shader.glsl".

(** How a run of [main] ends: it returns a status, or an exception nobody
    catches terminates the process, or (for a run observed over finitely
    many iterations) the loop is still going. *)
Inductive Outcome : Type :=
| Returned (status : Z)
| Terminated (e : Exception)
| StillRunning.

Section Shader.

(** The graphics driver, as far as the constructor depends on it: the
    handle a compiled source gets, and the handle of the program linked
    from two shaders. *)
Variable glCompileShader : ShaderType -> string -> Z.
Variable glLinkProgram : Z -> Z -> Z.

Record Shader : Type := mk_shader { ID : Z }.

(** Lines 77-83 (diagnostics are printed, the handle is returned in
    either case). *)
Definition compileShader (code : string) (type : ShaderType) : Z :=
  glCompileShader type code.

(** Lines 59-75. *)
Definition createShaderProgram (fs : FileSystem) (vertexPath fragmentPath : string)
  : Throws Z :=
  do vertexCode <- readFile fs vertexPath;
  do fragmentCode <- readFile fs fragmentPath;
  let vertexShader := compileShader vertexCode GL_VERTEX_SHADER in
  let fragmentShader := compileShader fragmentCode GL_FRAGMENT_SHADER in
  ret (glLinkProgram vertexShader fragmentShader).

(** Lines 42-44. *)
Definition Shader_new (fs : FileSystem) (vertexPath fragmentPath : string)
  : Throws Shader :=
  do program <- createShaderProgram fs vertexPath fragmentPath;
  ret (mk_shader program).

(** Lines 208-283.  [windowCreated] and [gladLoaded] say whether
    [glfwCreateWindow] and [gladLoadGLLoader] succeeded; [frames] are the
    event batches of the loop's iterations.  The result is how the run
    ends and the graphics calls of its loop. *)
Definition main (windowCreated gladLoaded : bool) (fs : FileSystem)
           (frames : list (list Event)) : Outcome * list GlCall :=
  if negb windowCreated then (Returned (-1), [])
  else if negb gladLoaded then (Returned (-1), [])
  else
    match Shader_new fs VERTEX_SHADER_PATH FRAGMENT_SHADER_PATH with
    | inl e => (Terminated e, [])
    | inr shader =>
        let (s, calls) := main_loop frames initial_world in
        (if shouldClose (window s) then Returned 0 else StillRunning, calls)
    end.

End Shader.

(** ** The frame loop, counted *)

Definition is_clear (c : GlCall) : bool :=
  match c with glClear => true | _ => false end.

Definition is_swap (c : GlCall) : bool :=
  match c with glfwSwapBuffers => true | _ => false end.

Definition is_viewport (c : GlCall) : bool :=
  match c with glViewport _ _ _ _ => true | _ => false end.

(** An event that asks the loop to end: a close request, or Escape going
    down. *)
Definition is_close_signal (e : Event) : bool :=
  match e with
  | CloseRequest => true
  | KeyChange KEY_ESCAPE true => true
  | _ => false
  end.

(** The viewports the framebuffer-size events of a batch ask for. *)
Fixpoint viewports_of (evs : list Event) : list GlCall :=
  match evs with
  | [] => []
  | FramebufferSize width height :: evs' => glViewport 0 0 width height :: viewports_of evs'
  | _ :: evs' => viewports_of evs'
  end.

(** ** What the shader constructor writes to the diagnostic stream *)

(** Line 87: [char infoLog[1024]]. *)
Definition INFO_LOG_SIZE : nat := 1024.

(** [glGetShaderInfoLog] and [glGetProgramInfoLog] copy at most
    [bufSize - 1] characters of the log into the buffer, which is then
    printed as a C string. *)
Definition read_info_log (bufSize : nat) (log : string) : string :=
  substring 0 (bufSize - 1) log.

(** Line 81: the name [compileShader] passes for a shader type. *)
Definition shader_type_name (type : ShaderType) : string :=
  match type with
  | GL_VERTEX_SHADER => "VERTEX"
  | GL_FRAGMENT_SHADER => "FRAGMENT"
  end.

Section Diagnostics.

Variable glCompileShader : ShaderType -> string -> Z.
Variable glLinkProgram : Z -> Z -> Z.

(** What the driver answers for a handle: [GL_COMPILE_STATUS] and the
    shader's log, [GL_LINK_STATUS] and the program's log. *)
Variable compileStatus : Z -> bool.
Variable linkStatus : Z -> bool.
Variable shaderInfoLog : Z -> string.
Variable programInfoLog : Z -> string.

(** Lines 85-101: the lines written to [std::cerr]. *)
Definition checkCompileErrors (shader : Z) (type : string) : list string :=
  if String.eqb type "PROGRAM" then
    if linkStatus shader then []
    else [("Program Linking Error: "
            ++ read_info_log INFO_LOG_SIZE (programInfoLog shader))%string]
  else
    if compileStatus shader then []
    else [(type ++ " Shader Compilation Error: "
            ++ read_info_log INFO_LOG_SIZE (shaderInfoLog shader))%string].

(** Lines 77-83, with the diagnostics of line 81. *)
Definition compileShader_cerr (code : string) (type : ShaderType) : Z * list string :=
  let shader := compileShader glCompileShader code type in
  (shader, checkCompileErrors shader (shader_type_name type)).

(** Lines 59-75, with the diagnostics of lines 62, 63 and 69 in the order
    they are written. *)
Definition createShaderProgram_cerr (fs : FileSystem) (vertexPath fragmentPath : string)
  : Throws (Z * list string) :=
  do vertexCode <- readFile fs vertexPath;
  do fragmentCode <- readFile fs fragmentPath;
  let (vertexShader, cerr1) := compileShader_cerr vertexCode GL_VERTEX_SHADER in
  let (fragmentShader, cerr2) := compileShader_cerr fragmentCode GL_FRAGMENT_SHADER in
  let program := glLinkProgram vertexShader fragmentShader in
  ret (program, cerr1 ++ cerr2 ++ checkCompileErrors program "PROGRAM").

End Diagnostics.

(** ** [checkOpenGLError] *)

Definition GL_NO_ERROR : N := 0.

(** [glGetError]: the oldest error the context has recorded, which the
    call clears, or [GL_NO_ERROR] when none is recorded. *)
Definition glGetError (pending : list N) : N * list N :=
  match pending with
  | [] => (GL_NO_ERROR, [])
  | err :: rest => (err, rest)
  end.

(** Line 33: one line of the report; the code is printed in decimal. *)
Definition error_line (context : string) (err : N) : string :=
  ("OpenGL Error in " ++ context ++ ": "
     ++ DecimalString.NilZero.string_of_uint (N.to_uint err))%string.

(** Lines 30-35: the loop, with the number of calls of [glGetError] it may
    make; the result is the lines printed and the errors still recorded. *)
Fixpoint checkOpenGLError_loop (fuel : nat) (context : string) (pending : list N)
  : option (list string * list N) :=
  match fuel with
  | O => None
  | S fuel' =>
      let (err, pending') := glGetError pending in
      if N.eqb err GL_NO_ERROR then Some ([], pending')
      else
        match checkOpenGLError_loop fuel' context pending' with
        | Some (out, rest) => Some (error_line context err :: out, rest)
        | None => None
        end
  end.

Definition checkOpenGLError (context : string) (pending : list N)
  : option (list string * list N) :=
  checkOpenGLError_loop (S (List.length pending)) context pending.

(** ** The quad and its vertex layout *)

(** Lines 237-244. *)
Definition squareVertices : list R :=
  [ -0.5; -0.5; 0;   0; 0;
     0.5; -0.5; 0;   1; 0;
     0.5;  0.5; 0;   1; 1;
     0.5;  0.5; 0;   1; 1;
    -0.5;  0.5; 0;   0; 1;
    -0.5; -0.5; 0;   0; 0 ].

Definition sizeof_float : Z := 4.

(** [sizeof(squareVertices)], the size of the buffer of line 248. *)
Definition sizeof_squareVertices : Z := sizeof_float * Z.of_nat (List.length squareVertices).

(** The arguments of a [glVertexAttribPointer] call the layout depends on:
    the number of components, the stride and the offset, in bytes. *)
Record VertexAttrib : Type := mk_attrib {
  attrib_size : Z;
  attrib_stride : Z;
  attrib_pointer : Z
}.

(** Lines 252 and 254. *)
Definition position_attrib : VertexAttrib :=
  mk_attrib 3 (5 * sizeof_float) 0.
Definition texcoord_attrib : VertexAttrib :=
  mk_attrib 2 (5 * sizeof_float) (3 * sizeof_float).

(** The bytes [first, last) of the bound buffer that vertex [i] takes an
    attribute from. *)
Definition attrib_bytes (a : VertexAttrib) (i : Z) : Z * Z :=
  let first := (attrib_pointer a + attrib_stride a * i)%Z in
  (first, (first + attrib_size a * sizeof_float)%Z).

(** The components vertex [i] gets for an attribute out of [data], when
    its bytes lie inside the buffer. *)
Definition fetch (data : list R) (a : VertexAttrib) (i : Z) : option (list R) :=
  let (first, last) := attrib_bytes a i in
  if ((0 <=? first) && (last <=? sizeof_float * Z.of_nat (List.length data)))%Z
  then Some (firstn (Z.to_nat (attrib_size a))
               (skipn (Z.to_nat (first / sizeof_float)) data))
  else None.

(** * The handlers in binary32

    The second reading of the program's numbers, used where rounding
    decides a statement: [float] is IEEE 754 binary32 and [double] is
    binary64, both with round to nearest even, as [SpecFloat] defines
    them.  [cos] and [sin] belong to the C library, not to this
    repository, so the vector lines 184-188 store for a yaw and a pitch is
    a parameter of [mouse_callback]. *)

Module fp.

Definition float : Type := spec_float.
Definition double : Type := spec_float.

(** An integer as a [float] and as a [double]. *)
Definition float_of_Z (n : Z) : float := binary_normalize 24 128 n 0 false.
Definition double_of_Z (n : Z) : double := binary_normalize 53 1024 n 0 false.

(** The conversion of a [double] to [float] rounds; the conversion of a
    [float] to [double] is exact. *)
Definition to_float (d : double) : float :=
  match d with
  | S754_finite s m e => binary_round 24 128 s m e
  | _ => d
  end.
Definition to_double (f : float) : double :=
  match f with
  | S754_finite s m e => binary_round 53 1024 s m e
  | _ => f
  end.

(** [float] arithmetic. *)
Definition add : float -> float -> float := SFadd 24 128.
Definition sub : float -> float -> float := SFsub 24 128.
Definition mul : float -> float -> float := SFmul 24 128.
Definition div : float -> float -> float := SFdiv 24 128.
Definition sqrt : float -> float := SFsqrt 24 128.
Definition ltb : float -> float -> bool := SFltb.

(** [double] arithmetic. *)
Definition dsub : double -> double -> double := SFsub 53 1024.
Definition dmul : double -> double -> double := SFmul 53 1024.

(** The rational number a finite value stands for. *)
Definition to_Q (v : spec_float) : Q :=
  match v with
  | S754_finite s m e => (inject_Z (cond_Zopp s (Zpos m)) * Qpower 2 e)%Q
  | _ => 0%Q
  end.

Definition is_zero (v : spec_float) : bool :=
  match v with S754_zero _ => true | _ => false end.
(** Neither an infinity nor a NaN. *)
Definition is_finite (v : spec_float) : bool :=
  match v with S754_zero _ | S754_finite _ _ _ => true | _ => false end.

End fp.

Module binary32.

Record vec3 : Type := mk_vec3 { x : fp.float; y : fp.float; z : fp.float }.

(** [vec3 + vec3], [vec3 - vec3], [float * vec3], [vec3 * float]. *)
Definition add (a b : vec3) : vec3 :=
  mk_vec3 (fp.add (x a) (x b)) (fp.add (y a) (y b)) (fp.add (z a) (z b)).
Definition sub (a b : vec3) : vec3 :=
  mk_vec3 (fp.sub (x a) (x b)) (fp.sub (y a) (y b)) (fp.sub (z a) (z b)).
Definition smul (s : fp.float) (v : vec3) : vec3 :=
  mk_vec3 (fp.mul s (x v)) (fp.mul s (y v)) (fp.mul s (z v)).
Definition muls (v : vec3) (s : fp.float) : vec3 :=
  mk_vec3 (fp.mul (x v) s) (fp.mul (y v) s) (fp.mul (z v) s).

(** [glm::dot]: the three products, summed left to right. *)
Definition dot (a b : vec3) : fp.float :=
  fp.add (fp.add (fp.mul (x a) (x b)) (fp.mul (y a) (y b))) (fp.mul (z a) (z b)).

(** [glm::cross]. *)
Definition cross (a b : vec3) : vec3 :=
  mk_vec3 (fp.sub (fp.mul (y a) (z b)) (fp.mul (y b) (z a)))
          (fp.sub (fp.mul (z a) (x b)) (fp.mul (z b) (x a)))
          (fp.sub (fp.mul (x a) (y b)) (fp.mul (x b) (y a))).

(** [glm::inversesqrt] and [glm::normalize]. *)
Definition inversesqrt (a : fp.float) : fp.float := fp.div (fp.float_of_Z 1) (fp.sqrt a).
Definition normalize (v : vec3) : vec3 := muls v (inversesqrt (dot v v)).

(** [glm::max], [glm::min], [glm::clamp]. *)
Definition max (a b : fp.float) : fp.float := if fp.ltb a b then b else a.
Definition min (a b : fp.float) : fp.float := if fp.ltb b a then b else a.
Definition clamp (v minVal maxVal : fp.float) : fp.float := min (max v minVal) maxVal.

(** Lines 20-27. *)
Record Globals : Type := mk_globals {
  cameraPos : vec3;
  cameraFront : vec3;
  cameraUp : vec3;
  cameraSpeed : fp.float;
  yaw : fp.float;
  pitch : fp.float;
  lastX : fp.float;
  lastY : fp.float;
  firstMouse : bool;
  sensitivity : fp.float
}.

(** The literals [0.03f] and [0.1f] are the floats nearest to 3/100 and
    1/10, which is what the correctly rounded quotients are. *)
Definition initial_globals : Globals :=
  {| cameraPos := mk_vec3 (fp.float_of_Z 0) (fp.float_of_Z 0) (fp.float_of_Z 3);
     cameraFront := mk_vec3 (fp.float_of_Z 0) (fp.float_of_Z 0) (fp.float_of_Z (-1));
     cameraUp := mk_vec3 (fp.float_of_Z 0) (fp.float_of_Z 1) (fp.float_of_Z 0);
     cameraSpeed := fp.div (fp.float_of_Z 3) (fp.float_of_Z 100);
     yaw := fp.float_of_Z (-90);
     pitch := fp.float_of_Z 0;
     lastX := fp.float_of_Z (WINDOW_WIDTH / 2);
     lastY := fp.float_of_Z (WINDOW_HEIGHT / 2);
     firstMouse := true;
     sensitivity := fp.div (fp.float_of_Z 1) (fp.float_of_Z 10) |}.

Section Pointer.

(** Lines 184-188: the front stored for a yaw and a pitch. *)
Variable direction : fp.float -> fp.float -> vec3.

(** Lines 168-172: the stores into [lastX] and [lastY] convert the
    [double] coordinates to [float]. *)
Definition take_first_sample (g : Globals) (xpos ypos : fp.double) : Globals :=
  if firstMouse g then
    {| cameraPos := cameraPos g; cameraFront := cameraFront g;
       cameraUp := cameraUp g; cameraSpeed := cameraSpeed g;
       yaw := yaw g; pitch := pitch g;
       lastX := fp.to_float xpos; lastY := fp.to_float ypos; firstMouse := false;
       sensitivity := sensitivity g |}
  else g.

(** Lines 174-175: the difference and the product are computed in
    [double], the result is converted to [float]. *)
Definition xOffset (g : Globals) (xpos ypos : fp.double) : fp.float :=
  fp.to_float
    (fp.dmul (fp.dsub xpos (fp.to_double (lastX (take_first_sample g xpos ypos))))
             (fp.to_double (sensitivity g))).
Definition yOffset (g : Globals) (xpos ypos : fp.double) : fp.float :=
  fp.to_float
    (fp.dmul (fp.dsub (fp.to_double (lastY (take_first_sample g xpos ypos))) ypos)
             (fp.to_double (sensitivity g))).

(** Lines 167-189. *)
Definition mouse_callback (g : Globals) (xpos ypos : fp.double) : Globals :=
  let dx := xOffset g xpos ypos in
  let dy := yOffset g xpos ypos in
  let yaw' := fp.add (yaw g) dx in
  let pitch' := clamp (fp.add (pitch g) dy) (fp.float_of_Z (-89)) (fp.float_of_Z 89) in
  {| cameraPos := cameraPos g;
     cameraFront := direction yaw' pitch';
     cameraUp := cameraUp g;
     cameraSpeed := cameraSpeed g;
     yaw := yaw';
     pitch := pitch';
     lastX := fp.to_float xpos;
     lastY := fp.to_float ypos;
     firstMouse := false;
     sensitivity := sensitivity g |}.

Definition pointer_moves (g : Globals) (evs : list (fp.double * fp.double)) : Globals :=
  fold_left (fun g' p => mouse_callback g' (fst p) (snd p)) evs g.

(** The horizontal offsets the calls of a sequence compute, one per event. *)
Fixpoint xOffsets (g : Globals) (evs : list (fp.double * fp.double)) : list fp.float :=
  match evs with
  | [] => []
  | p :: evs' =>
      xOffset g (fst p) (snd p)
        :: xOffsets (mouse_callback g (fst p) (snd p)) evs'
  end.

End Pointer.

Definition set_cameraPos (g : Globals) (p : vec3) : Globals :=
  {| cameraPos := p; cameraFront := cameraFront g; cameraUp := cameraUp g;
     cameraSpeed := cameraSpeed g; yaw := yaw g; pitch := pitch g;
     lastX := lastX g; lastY := lastY g; firstMouse := firstMouse g;
     sensitivity := sensitivity g |}.

(** Lines 196-204. *)
Definition move_camera (w : Window) (g : Globals) : Globals :=
  let velocity := cameraSpeed g in
  let g1 := if keyW w
            then set_cameraPos g (add (cameraPos g) (smul velocity (cameraFront g)))
            else g in
  let g2 := if keyS w
            then set_cameraPos g1 (sub (cameraPos g1) (smul velocity (cameraFront g1)))
            else g1 in
  let g3 := if keyA w
            then set_cameraPos g2
                   (sub (cameraPos g2)
                        (muls (normalize (cross (cameraFront g2) (cameraUp g2))) velocity))
            else g2 in
  if keyD w
  then set_cameraPos g3
         (add (cameraPos g3)
              (muls (normalize (cross (cameraFront g3) (cameraUp g3))) velocity))
  else g3.

(** Lines 192-205. *)
Definition processInput (w : Window) (g : Globals) : Window * Globals :=
  let w' := if keyEscape w then glfwSetWindowShouldClose w true else w in
  (w', move_camera w g).

Fixpoint ticks (n : nat) (w : Window) (g : Globals) : Globals :=
  match n with
  | O => g
  | S n' => ticks n' w (snd (processInput w g))
  end.

End binary32.

(** ** The state the loop keeps the camera in *)

(** The front is the initial one or the one the last pointer event derived
    from yaw and pitch, the pitch is within its clamp, and the three
    variables no statement assigns still hold their initialisers. *)
Definition camera_invariant (g : Globals) : Prop :=
  (cameraFront g = glm.mk_vec3 0 0 (-1)
   \/ cameraFront g = glm.normalize (direction (yaw g) (pitch g)))
  /\ -89 <= pitch g <= 89
  /\ cameraUp g = glm.mk_vec3 0 1 0
  /\ cameraSpeed g = 0.03
  /\ sensitivity g = 0.1.

(** Two values that compare equal: the same value, or two zeros. *)
Definition same_value (a b : fp.float) : Prop :=
  a = b \/ (fp.is_zero a = true /\ fp.is_zero b = true).

(** ** Inputs used in the statements below *)

(** A directory that holds the vertex shader only. *)
Definition vertex_shader_only : FileSystem :=
  fun filepath =>
    if String.eqb filepath VERTEX_SHADER_PATH
    then Some "void main() {}"%string
    else None.

(** [n] pointer samples on the line [y], each [d] pixels to the right of
    the one before, the first one [d] pixels to the right of [x0]. *)
Fixpoint sweep (x0 d y : R) (n : nat) : list (R * R) :=
  match n with
  | O => []
  | S n' => (x0 + d, y) :: sweep (x0 + d) d y n'
  end.

(** A front computation for statements that do not depend on it. *)
Definition stand_in_front : fp.float -> fp.float -> binary32.vec3 :=
  fun _ _ => binary32.cameraFront binary32.initial_globals.

(** The cursor position (1234 + 2^-20, 300 + 2^-20): two [double]s that
    are not [float]s. *)
Definition off_grid_x : fp.double := binary_normalize 53 1024 (1234 * 2 ^ 20 + 1) (-20) false.
Definition off_grid_y : fp.double := binary_normalize 53 1024 (300 * 2 ^ 20 + 1) (-20) false.

(** A cursor position on whole pixels. *)
Definition pixel (px py : Z) : fp.double * fp.double :=
  (fp.double_of_Z px, fp.double_of_Z py).

(** The pointer leaves x = 400 and comes back to it. *)
Definition there_and_back : list (fp.double * fp.double) :=
  [pixel 400 300; pixel 64 300; pixel 261 300; pixel 120 300; pixel 400 300].

(** [n] samples on whole pixels, each [d] pixels to the right of the one
    before, the first one [d] pixels to the right of [x0]. *)
Fixpoint sweep_pixels (x0 d py : Z) (n : nat) : list (fp.double * fp.double) :=
  match n with
  | O => []
  | S n' => pixel (x0 + d) py :: sweep_pixels (x0 + d) d py n'
  end.

(** A pointer far to the right of where it started: the yaw is 2^28. *)
Definition far_right : list (fp.double * fp.double) :=
  [pixel 0 0; pixel 2684355460 0; pixel 2684355560 0].

Definition only_W : Window := mk_window false false true false false false.
Definition W_and_S : Window := mk_window false false true true false false.

(** * Properties *)

(** ** Clamping *)

Lemma clamp_range (v lo hi : R) :
  lo <= hi -> lo <= glm.clamp v lo hi <= hi.
Proof.
  intros Hle. unfold glm.clamp, glm.min, glm.max.
  destruct (Rlt_dec v lo) as [Hlo | Hlo];
    [ destruct (Rlt_dec hi lo) | destruct (Rlt_dec hi v) ]; lra.
Qed.

Lemma clamp_above (v lo hi : R) :
  lo <= hi -> hi < v -> glm.clamp v lo hi = hi.
Proof.
  intros Hle Hv. unfold glm.clamp, glm.min, glm.max.
  destruct (Rlt_dec v lo); [ lra | ].
  destruct (Rlt_dec hi v); lra.
Qed.

Lemma clamp_below (v lo hi : R) :
  lo <= hi -> v < lo -> glm.clamp v lo hi = lo.
Proof.
  intros Hle Hv. unfold glm.clamp, glm.min, glm.max.
  destruct (Rlt_dec v lo); [ | lra ].
  destruct (Rlt_dec hi lo); lra.
Qed.

Lemma clamp_inside (v lo hi : R) :
  lo <= v <= hi -> glm.clamp v lo hi = v.
Proof.
  intros Hv. unfold glm.clamp, glm.min, glm.max.
  destruct (Rlt_dec v lo); [ lra | ].
  destruct (Rlt_dec hi v); lra.
Qed.

(** ** Vectors *)

Lemma vec3_eq (a b : glm.vec3) :
  glm.x a = glm.x b -> glm.y a = glm.y b -> glm.z a = glm.z b -> a = b.
Proof. destruct a, b; simpl; intros; subst; reflexivity. Qed.

Lemma inversesqrt_1 : glm.inversesqrt 1 = 1.
Proof. unfold glm.inversesqrt. rewrite sqrt_1. lra. Qed.

Lemma normalize_unit (v : glm.vec3) : glm.dot v v = 1 -> glm.normalize v = v.
Proof.
  intros Hv. unfold glm.normalize. rewrite Hv, inversesqrt_1.
  apply vec3_eq; simpl; lra.
Qed.

(** A vector that is not null is scaled to length 1. *)
Lemma normalize_length (v : glm.vec3) :
  0 < glm.dot v v -> glm.dot (glm.normalize v) (glm.normalize v) = 1.
Proof.
  intros Hpos.
  assert (Hs : 0 < sqrt (glm.dot v v)) by (apply sqrt_lt_R0; exact Hpos).
  assert (Hsq : sqrt (glm.dot v v) * sqrt (glm.dot v v) = glm.dot v v)
    by (apply sqrt_sqrt; lra).
  unfold glm.normalize, glm.inversesqrt.
  set (r := sqrt (glm.dot v v)) in *.
  unfold glm.dot at 1. simpl.
  replace (glm.x v * (1 / r) * (glm.x v * (1 / r)) +
           glm.y v * (1 / r) * (glm.y v * (1 / r)) +
           glm.z v * (1 / r) * (glm.z v * (1 / r)))
    with (glm.dot v v / (r * r)) by (unfold glm.dot; field; lra).
  rewrite Hsq. field. lra.
Qed.

(** The direction of any yaw and pitch already has squared length 1. *)
Lemma direction_dot (yaw_deg pitch_deg : R) :
  glm.dot (direction yaw_deg pitch_deg) (direction yaw_deg pitch_deg) = 1.
Proof.
  unfold direction, glm.dot. simpl.
  generalize (sin2_cos2 (glm.radians yaw_deg)).
  generalize (sin2_cos2 (glm.radians pitch_deg)).
  unfold Rsqr.
  set (cy := cos (glm.radians yaw_deg)). set (sy := sin (glm.radians yaw_deg)).
  set (cp := cos (glm.radians pitch_deg)). set (sp := sin (glm.radians pitch_deg)).
  intros Hp Hy.
  replace (cy * cp * (cy * cp) + sp * sp + sy * cp * (sy * cp))
    with ((sy * sy + cy * cy) * (cp * cp) + sp * sp) by ring.
  rewrite Hy. lra.
Qed.

Lemma normalize_direction (yaw_deg pitch_deg : R) :
  glm.normalize (direction yaw_deg pitch_deg) = direction yaw_deg pitch_deg.
Proof. apply normalize_unit, direction_dot. Qed.

(** Within the clamp the cosine of the pitch is positive. *)
Lemma cos_pitch_pos (pitch_deg : R) :
  -89 <= pitch_deg <= 89 -> 0 < cos (glm.radians pitch_deg).
Proof.
  intros Hp. unfold glm.radians.
  pose proof PI_RGT_0 as Hpi.
  apply cos_gt_0; nra.
Qed.

(** ** Frame conditions of the two handlers *)

Lemma mouse_callback_yaw (g : Globals) (xpos ypos : R) :
  yaw (mouse_callback g xpos ypos) = yaw g + xOffset g xpos ypos.
Proof. reflexivity. Qed.

Lemma mouse_callback_pitch (g : Globals) (xpos ypos : R) :
  pitch (mouse_callback g xpos ypos)
  = glm.clamp (pitch g + yOffset g xpos ypos) (-89) 89.
Proof. reflexivity. Qed.

Lemma mouse_callback_front (g : Globals) (xpos ypos : R) :
  cameraFront (mouse_callback g xpos ypos)
  = glm.normalize (direction (yaw (mouse_callback g xpos ypos))
                             (pitch (mouse_callback g xpos ypos))).
Proof. reflexivity. Qed.

Lemma move_camera_frame (w : Window) (g : Globals) :
  cameraFront (move_camera w g) = cameraFront g
  /\ cameraUp (move_camera w g) = cameraUp g
  /\ cameraSpeed (move_camera w g) = cameraSpeed g
  /\ yaw (move_camera w g) = yaw g
  /\ pitch (move_camera w g) = pitch g
  /\ lastX (move_camera w g) = lastX g
  /\ lastY (move_camera w g) = lastY g
  /\ firstMouse (move_camera w g) = firstMouse g
  /\ sensitivity (move_camera w g) = sensitivity g.
Proof.
  unfold move_camera.
  destruct (keyW w), (keyS w), (keyA w), (keyD w); simpl; repeat split; reflexivity.
Qed.

(** ** The pitch clamp *)

Lemma mouse_callback_pitch_range (g : Globals) (xpos ypos : R) :
  -89 <= pitch (mouse_callback g xpos ypos) <= 89.
Proof. rewrite mouse_callback_pitch. apply clamp_range. lra. Qed.

Lemma states_after_pitch_range (evs : list (R * R)) :
  forall g, Forall (fun g' => -89 <= pitch g' <= 89) (states_after g evs).
Proof.
  induction evs as [| p evs IH]; intros g; simpl.
  - constructor.
  - constructor; [ apply mouse_callback_pitch_range | apply IH ].
Qed.

(** C1.  Whatever the state and whatever the sequence of pointer events,
    the pitch after each call of [mouse_callback] lies in [-89, 89]; and a
    call whose offset would take the pitch above 89 (below -89) leaves it
    at exactly 89 (-89). *)
Theorem pitch_always_clamped (g : Globals) (evs : list (R * R)) :
  Forall (fun g' => -89 <= pitch g' <= 89) (states_after g evs)
  /\ (forall xpos ypos,
        89 < pitch g + yOffset g xpos ypos ->
        pitch (mouse_callback g xpos ypos) = 89)
  /\ (forall xpos ypos,
        pitch g + yOffset g xpos ypos < -89 ->
        pitch (mouse_callback g xpos ypos) = -89).
Proof.
  split; [ apply states_after_pitch_range | split ]; intros xpos ypos H;
    rewrite mouse_callback_pitch.
  - apply clamp_above; lra.
  - apply clamp_below; lra.
Qed.

Lemma first_sample_offsets (g : Globals) (xpos ypos : R) :
  firstMouse g = true -> xOffset g xpos ypos = 0 /\ yOffset g xpos ypos = 0.
Proof.
  intros Hf. unfold xOffset, yOffset, take_first_sample. rewrite Hf. simpl.
  split; ring.
Qed.

Lemma later_sample_offsets (g : Globals) (xpos ypos : R) :
  firstMouse g = false ->
  xOffset g xpos ypos = (xpos - lastX g) * sensitivity g
  /\ yOffset g xpos ypos = (lastY g - ypos) * sensitivity g.
Proof.
  intros Hf. unfold xOffset, yOffset, take_first_sample. rewrite Hf.
  split; reflexivity.
Qed.

(** Pushing the pointer 1300 pixels up from the first sample asks for 130
    degrees of pitch and gets 89. *)
Lemma pitch_always_clamped_witness :
  pitch (mouse_callback (mouse_callback initial_globals 400 300) 400 (-1000)) = 89.
Proof.
  apply (pitch_always_clamped (mouse_callback initial_globals 400 300) []).
  rewrite mouse_callback_pitch.
  destruct (first_sample_offsets initial_globals 400 300 eq_refl) as [_ Hy].
  rewrite Hy.
  destruct (later_sample_offsets (mouse_callback initial_globals 400 300)
              400 (-1000) eq_refl) as [_ Hy'].
  rewrite Hy'. simpl.
  rewrite clamp_inside; lra.
Defined.

(** ** The front vector *)

(** Within the clamp the front never points straight up or down. *)
Lemma sin_pitch_strict (pitch_deg : R) :
  -89 <= pitch_deg <= 89 -> -1 < sin (glm.radians pitch_deg) < 1.
Proof.
  intros Hp.
  pose proof (cos_pitch_pos pitch_deg Hp) as Hc.
  pose proof (sin2_cos2 (glm.radians pitch_deg)) as H1. unfold Rsqr in H1.
  split; nra.
Qed.

(** C2.  For every yaw and every pitch in [-89, 89], the vector
    (cos yaw * cos pitch, sin pitch, sin yaw * cos pitch), normalised as
    [mouse_callback] does, has length 1 (and its vertical component stays
    strictly between -1 and 1); that vector is the front [mouse_callback]
    stores whenever it leaves that yaw and pitch. *)
Theorem front_has_unit_length (yaw_deg pitch_deg : R) :
  -89 <= pitch_deg <= 89 ->
  glm.length (glm.normalize (direction yaw_deg pitch_deg)) = 1
  /\ -1 < glm.y (glm.normalize (direction yaw_deg pitch_deg)) < 1
  /\ (forall g xpos ypos,
        yaw (mouse_callback g xpos ypos) = yaw_deg ->
        pitch (mouse_callback g xpos ypos) = pitch_deg ->
        glm.length (cameraFront (mouse_callback g xpos ypos)) = 1).
Proof.
  intros Hp.
  assert (Hlen : glm.length (glm.normalize (direction yaw_deg pitch_deg)) = 1).
  { unfold glm.length. rewrite normalize_length.
    - apply sqrt_1.
    - rewrite direction_dot. lra. }
  split; [ exact Hlen | split ].
  - rewrite normalize_direction. simpl. apply sin_pitch_strict. exact Hp.
  - intros g xpos ypos Hy Hpitch.
    rewrite mouse_callback_front, Hy, Hpitch. exact Hlen.
Qed.

Lemma front_has_unit_length_witness :
  glm.length (glm.normalize (direction (-90) 0)) = 1.
Proof.
  apply (front_has_unit_length (-90) 0). lra.
Defined.

(** ** The first pointer sample *)

Lemma first_call_keeps_angles (g : Globals) (xpos ypos : R) :
  firstMouse g = true ->
  -89 <= pitch g <= 89 ->
  yaw (mouse_callback g xpos ypos) = yaw g
  /\ pitch (mouse_callback g xpos ypos) = pitch g.
Proof.
  intros Hf Hp.
  destruct (first_sample_offsets g xpos ypos Hf) as [Hx Hy].
  rewrite mouse_callback_yaw, mouse_callback_pitch, Hx, Hy, !Rplus_0_r.
  split; [ reflexivity | apply clamp_inside; exact Hp ].
Qed.

(** ** Movement *)

Lemma set_cameraPos_same (g : Globals) : set_cameraPos g (cameraPos g) = g.
Proof. destruct g; reflexivity. Qed.

Lemma set_cameraPos_twice (g : Globals) (p q : glm.vec3) :
  set_cameraPos (set_cameraPos g p) q = set_cameraPos g q.
Proof. reflexivity. Qed.

Lemma add_sub_cancel (p d : glm.vec3) : glm.sub (glm.add p d) d = p.
Proof. apply vec3_eq; simpl; ring. Qed.

(** The W step followed by the S step restores the state. *)
Lemma forward_then_back (g : Globals) :
  let g1 := set_cameraPos g
              (glm.add (cameraPos g) (glm.smul (cameraSpeed g) (cameraFront g))) in
  set_cameraPos g1
    (glm.sub (cameraPos g1) (glm.smul (cameraSpeed g) (cameraFront g1))) = g.
Proof.
  intros g1. unfold g1. rewrite set_cameraPos_twice. simpl cameraPos.
  simpl cameraFront. rewrite add_sub_cancel. apply set_cameraPos_same.
Qed.

Lemma forward_only_step (w : Window) (g : Globals) :
  keyW w = true -> keyS w = false -> keyA w = false -> keyD w = false ->
  snd (processInput w g)
  = set_cameraPos g (glm.add (cameraPos g) (glm.smul (cameraSpeed g) (cameraFront g))).
Proof.
  intros HW HS HA HD. unfold processInput, move_camera. simpl snd.
  rewrite HW, HS, HA, HD. reflexivity.
Qed.

Lemma forward_only_ticks (w : Window) :
  keyW w = true -> keyS w = false -> keyA w = false -> keyD w = false ->
  forall n g,
    cameraPos (ticks n w g)
    = glm.add (cameraPos g) (glm.smul (INR n * cameraSpeed g) (cameraFront g))
    /\ cameraFront (ticks n w g) = cameraFront g
    /\ cameraSpeed (ticks n w g) = cameraSpeed g.
Proof.
  intros HW HS HA HD. induction n as [| n IH]; intros g.
  - simpl ticks. repeat split. apply vec3_eq; simpl; ring.
  - cbn [ticks]. rewrite (forward_only_step w g HW HS HA HD).
    destruct (IH (set_cameraPos g
                    (glm.add (cameraPos g)
                       (glm.smul (cameraSpeed g) (cameraFront g)))))
      as (Hpos & Hfront & Hspeed).
    rewrite Hpos, Hfront, Hspeed, S_INR.
    repeat split. apply vec3_eq; simpl; ring.
Qed.

Lemma opposing_keys_cancel (w : Window) (g : Globals) :
  keyW w = true -> keyS w = true ->
  snd (processInput w g)
  = snd (processInput (set_key (set_key w KEY_W false) KEY_S false) g).
Proof.
  intros HW HS. unfold processInput. simpl snd. unfold move_camera.
  rewrite HW, HS. cbv zeta.
  rewrite (forward_then_back g).
  simpl keyW. simpl keyS. simpl keyA. simpl keyD. reflexivity.
Qed.

(** ** Strafing *)

(** The cross product of a vector with the world up axis. *)
Lemma cross_world_up (f : glm.vec3) :
  glm.cross f (glm.mk_vec3 0 1 0) = glm.mk_vec3 (- glm.z f) 0 (glm.x f).
Proof. apply vec3_eq; simpl; ring. Qed.

Lemma cross_direction_dot (yaw_deg pitch_deg : R) :
  let c := glm.cross (direction yaw_deg pitch_deg) (glm.mk_vec3 0 1 0) in
  glm.dot c c = cos (glm.radians pitch_deg) * cos (glm.radians pitch_deg).
Proof.
  intros c. unfold c. rewrite cross_world_up. unfold direction, glm.dot. simpl.
  generalize (sin2_cos2 (glm.radians yaw_deg)). unfold Rsqr.
  set (cy := cos (glm.radians yaw_deg)). set (sy := sin (glm.radians yaw_deg)).
  set (cp := cos (glm.radians pitch_deg)).
  intros Hy.
  replace (- (sy * cp) * - (sy * cp) + 0 * 0 + cy * cp * (cy * cp))
    with ((sy * sy + cy * cy) * (cp * cp)) by ring.
  rewrite Hy. ring.
Qed.

(** C5.  In a state whose up vector is (0,1,0) and whose front is the one
    derived from its yaw and a pitch in [-89, 89], the cross product of
    front and up is not the null vector (its squared length is positive,
    so the normalisation divides by a non-zero length), and the strafe
    vector normalize(cross(front, up)) has dot product 0 with front. *)
Theorem strafe_well_defined_and_perpendicular (g : Globals) :
  cameraUp g = glm.mk_vec3 0 1 0 ->
  cameraFront g = glm.normalize (direction (yaw g) (pitch g)) ->
  -89 <= pitch g <= 89 ->
  let c := glm.cross (cameraFront g) (cameraUp g) in
  c <> glm.mk_vec3 0 0 0
  /\ 0 < glm.dot c c
  /\ glm.dot (glm.normalize c) (cameraFront g) = 0.
Proof.
  intros Hup Hfront Hp c.
  assert (Hpos : 0 < glm.dot c c).
  { unfold c. rewrite Hup, Hfront, normalize_direction.
    rewrite (cross_direction_dot (yaw g) (pitch g)).
    pose proof (cos_pitch_pos (pitch g) Hp). nra. }
  split; [ | split; [ exact Hpos | ] ].
  - intros Hnull. rewrite Hnull in Hpos. unfold glm.dot in Hpos. simpl in Hpos. lra.
  - unfold glm.normalize. generalize (glm.inversesqrt (glm.dot c c)). intros r.
    unfold c. rewrite Hup, cross_world_up. unfold glm.dot, glm.muls. simpl. ring.
Qed.

Lemma strafe_well_defined_and_perpendicular_witness :
  let g := mouse_callback initial_globals 400 300 in
  glm.dot (glm.normalize (glm.cross (cameraFront g) (cameraUp g))) (cameraFront g) = 0.
Proof.
  intros g.
  apply (strafe_well_defined_and_perpendicular g).
  - reflexivity.
  - apply mouse_callback_front.
  - apply mouse_callback_pitch_range.
Defined.

(** ** The start pose and a turn of ten degrees *)

Lemma direction_start_pose : direction (-90) 0 = glm.mk_vec3 0 0 (-1).
Proof.
  unfold direction, glm.radians.
  replace (0 * (PI / 180)) with 0 by ring.
  replace (-90 * (PI / 180)) with (- (PI / 2)) by field.
  rewrite cos_neg, sin_neg, cos_PI2, sin_PI2, cos_0, sin_0.
  apply vec3_eq; simpl; ring.
Qed.

Lemma direction_minus_eighty :
  direction (-80) 0
  = glm.mk_vec3 (sin (glm.radians 10)) 0 (- cos (glm.radians 10)).
Proof.
  unfold direction, glm.radians.
  replace (0 * (PI / 180)) with 0 by ring.
  replace (-80 * (PI / 180)) with (- (PI / 2 - 10 * (PI / 180))) by field.
  rewrite cos_neg, sin_neg, cos_shift, sin_shift, cos_0, sin_0.
  apply vec3_eq; simpl; ring.
Qed.

(** The state after the first sample at (x, y) and a second one 100 pixels
    to the right of it: 100 pixels times the sensitivity 0.1 is 10 degrees. *)
Lemma turn_ten_degrees (xpos ypos : R) :
  let g2 := pointer_moves initial_globals [(xpos, ypos); (xpos + 100, ypos)] in
  yaw g2 = -80 /\ pitch g2 = 0
  /\ cameraFront g2 = glm.mk_vec3 (sin (glm.radians 10)) 0 (- cos (glm.radians 10)).
Proof.
  intros g2.
  set (g1 := mouse_callback initial_globals xpos ypos).
  assert (Hg2 : g2 = mouse_callback g1 (xpos + 100) ypos) by reflexivity.
  destruct (first_call_keeps_angles initial_globals xpos ypos eq_refl)
    as [Hyaw1 Hpitch1].
  { simpl. lra. }
  fold g1 in Hyaw1, Hpitch1.
  destruct (later_sample_offsets g1 (xpos + 100) ypos eq_refl) as [Hx2 Hy2].
  assert (Hy : yaw g2 = -80).
  { rewrite Hg2, mouse_callback_yaw, Hx2, Hyaw1. simpl. lra. }
  assert (Hp : pitch g2 = 0).
  { rewrite Hg2, mouse_callback_pitch, Hy2, Hpitch1. simpl.
    rewrite clamp_inside; lra. }
  split; [ exact Hy | split; [ exact Hp | ] ].
  rewrite Hg2 in *.
  rewrite mouse_callback_front, Hy, Hp, normalize_direction.
  apply direction_minus_eighty.
Qed.

(** C6.  The start pose has yaw -90, pitch 0 and front (0,0,-1), which is
    also the front its yaw and pitch derive; after a pointer move worth
    +10 degrees of yaw and no pitch, each component of the recomputed
    front is within 1e-4 of (sin 10, 0, -cos 10) (angles in degrees). *)
Theorem start_pose_then_ten_degrees (xpos ypos : R) :
  let g2 := pointer_moves initial_globals [(xpos, ypos); (xpos + 100, ypos)] in
  yaw initial_globals = -90 /\ pitch initial_globals = 0
  /\ cameraFront initial_globals = glm.mk_vec3 0 0 (-1)
  /\ glm.normalize (direction (yaw initial_globals) (pitch initial_globals))
     = glm.mk_vec3 0 0 (-1)
  /\ yaw g2 = yaw initial_globals + 10
  /\ pitch g2 = pitch initial_globals
  /\ Rabs (glm.x (cameraFront g2) - sin (glm.radians 10)) <= 1 / 10000
  /\ Rabs (glm.y (cameraFront g2) - 0) <= 1 / 10000
  /\ Rabs (glm.z (cameraFront g2) - - cos (glm.radians 10)) <= 1 / 10000.
Proof.
  intros g2.
  destruct (turn_ten_degrees xpos ypos) as (Hy & Hp & Hf).
  fold g2 in Hy, Hp, Hf.
  repeat split; try reflexivity.
  - simpl yaw. simpl pitch. rewrite normalize_direction. apply direction_start_pose.
  - rewrite Hy. simpl. lra.
  - exact Hp.
  - rewrite Hf. simpl. rewrite Rminus_diag, Rabs_R0. lra.
  - rewrite Hf. simpl. rewrite Rminus_diag, Rabs_R0. lra.
  - rewrite Hf. simpl. rewrite Rminus_diag, Rabs_R0. lra.
Qed.

(** ** Escape and the frame loop *)

Lemma dispatch_keeps_close (e : Event) (s : World) :
  shouldClose (window s) = true ->
  shouldClose (window (fst (dispatch e s))) = true.
Proof.
  intros Hc. destruct e as [xpos ypos | k v | | width height]; simpl; try exact Hc.
  - destruct k; exact Hc.
  - reflexivity.
Qed.

Lemma glfwPollEvents_keeps_close (evs : list Event) :
  forall s, shouldClose (window s) = true ->
            shouldClose (window (fst (glfwPollEvents evs s))) = true.
Proof.
  induction evs as [| e evs IH]; intros s Hc; simpl.
  - exact Hc.
  - pose proof (dispatch_keeps_close e s Hc) as H1.
    destruct (dispatch e s) as [s1 c1]. simpl in H1.
    specialize (IH s1 H1).
    destruct (glfwPollEvents evs s1) as [s2 c2]. exact IH.
Qed.

Lemma processInput_escape (w : Window) (g : Globals) :
  keyEscape w = true -> shouldClose (fst (processInput w g)) = true.
Proof. intros He. unfold processInput. rewrite He. reflexivity. Qed.

Lemma loop_body_escape (evs : list Event) (s : World) :
  keyEscape (window s) = true ->
  shouldClose (window (fst (loop_body evs s))) = true.
Proof.
  intros He. unfold loop_body.
  pose proof (processInput_escape (window s) (globals s) He) as Hc.
  destruct (processInput (window s) (globals s)) as [w1 g1]. simpl in Hc.
  pose proof (glfwPollEvents_keeps_close evs (mk_world w1 g1) Hc) as Hp.
  destruct (glfwPollEvents evs (mk_world w1 g1)) as [s2 c2]. exact Hp.
Qed.

(** Every pass through the body issues exactly one draw call, of the six
    vertices of the quad. *)
Lemma glfwPollEvents_no_draw (evs : list Event) :
  forall s, filter is_draw (snd (glfwPollEvents evs s)) = [].
Proof.
  induction evs as [| e evs IH]; intros s; simpl.
  - reflexivity.
  - destruct (dispatch e s) as [s1 c1] eqn:Hd.
    specialize (IH s1). destruct (glfwPollEvents evs s1) as [s2 c2].
    simpl in *. rewrite filter_app, IH, app_nil_r.
    destruct e; simpl in Hd; inversion Hd; reflexivity.
Qed.

Lemma loop_body_one_draw (evs : list Event) (s : World) :
  filter is_draw (snd (loop_body evs s)) = [glDrawArrays GL_TRIANGLES 0 6].
Proof.
  unfold loop_body.
  destruct (processInput (window s) (globals s)) as [w1 g1].
  pose proof (glfwPollEvents_no_draw evs (mk_world w1 g1)) as Hp.
  destruct (glfwPollEvents evs (mk_world w1 g1)) as [s2 c2].
  simpl in *. rewrite Hp. reflexivity.
Qed.

Lemma main_loop_closing (frames : list (list Event)) (s : World) :
  shouldClose (window s) = true -> main_loop frames s = (s, []).
Proof. intros Hc. destruct frames; simpl; [ | rewrite Hc ]; reflexivity. Qed.

(** C7.  If Escape is down when a running iteration samples its input,
    the state at the next loop test is Closing; the loop stops there
    whatever events were or would be delivered, so the run consists of
    that iteration alone and its only draw call is the one of that
    iteration: none is issued in a later one. *)
Theorem escape_closes_loop (evs : list Event) (frames : list (list Event)) (s : World) :
  loop_state s = Running ->
  keyEscape (window s) = true ->
  let s1 := fst (loop_body evs s) in
  loop_state s1 = Closing
  /\ main_loop frames s1 = (s1, [])
  /\ main_loop (evs :: frames) s = loop_body evs s
  /\ filter is_draw (snd (main_loop (evs :: frames) s)) = [glDrawArrays GL_TRIANGLES 0 6].
Proof.
  intros Hrun Hesc s1.
  assert (Hopen : shouldClose (window s) = false).
  { unfold loop_state in Hrun. destruct (shouldClose (window s)); congruence. }
  assert (Hclosed : shouldClose (window s1) = true)
    by (apply loop_body_escape; exact Hesc).
  assert (Hstop : main_loop frames s1 = (s1, []))
    by (apply main_loop_closing; exact Hclosed).
  assert (Hrunning : main_loop (evs :: frames) s = loop_body evs s).
  { cbn [main_loop]. rewrite Hopen. unfold s1 in Hstop.
    destruct (loop_body evs s) as [s' c']. simpl in Hstop. rewrite Hstop.
    rewrite app_nil_r. reflexivity. }
  repeat split.
  - unfold loop_state. rewrite Hclosed. reflexivity.
  - exact Hstop.
  - exact Hrunning.
  - rewrite Hrunning. apply loop_body_one_draw.
Qed.

(** Escape goes down during the first frame: the second iteration samples
    it and is the last one, whatever the later batches hold. *)
Lemma escape_closes_loop_witness :
  let s := fst (loop_body [KeyChange KEY_ESCAPE true] initial_world) in
  loop_state (fst (loop_body [] s)) = Closing
  /\ main_loop [[CursorPos 1 2]; [KeyChange KEY_W true]] (fst (loop_body [] s))
     = (fst (loop_body [] s), []).
Proof.
  intros s.
  destruct (escape_closes_loop [] [[CursorPos 1 2]; [KeyChange KEY_W true]] s)
    as (H1 & H2 & _).
  - reflexivity.
  - reflexivity.
  - split; [ exact H1 | exact H2 ].
Defined.

(** ** Shader sources *)

Lemma readFile_missing (fs : FileSystem) (filepath : string) :
  fs filepath = None -> readFile fs filepath = throw (read_failure filepath).
Proof. intros H. unfold readFile. rewrite H. reflexivity. Qed.

Lemma readFile_found (fs : FileSystem) (filepath contents : string) :
  fs filepath = Some contents -> readFile fs filepath = ret contents.
Proof. intros H. unfold readFile. rewrite H. reflexivity. Qed.

(** C8.  For every path: when the file cannot be opened [readFile] throws
    an I/O failure and returns no string, when it can be opened [readFile]
    returns its whole contents.  The constructor of [Shader] reads the
    vertex source and then the fragment source, and the failure of either
    read leaves the constructor with that exception and no shader; with
    both files present it returns the program linked from the two
    sources.  In [main] nothing catches the exception: a run that gets as
    far as the constructor with a shader file missing is terminated by it
    before the first frame. *)
Theorem missing_shader_file_is_fatal
        (glCompileShader : ShaderType -> string -> Z) (glLinkProgram : Z -> Z -> Z)
        (fs : FileSystem) (vertexPath fragmentPath : string) :
  (forall filepath,
      fs filepath = None ->
      readFile fs filepath = throw (read_failure filepath))
  /\ (forall filepath contents,
        fs filepath = Some contents ->
        readFile fs filepath = ret contents)
  /\ (fs vertexPath = None ->
      Shader_new glCompileShader glLinkProgram fs vertexPath fragmentPath
      = throw (read_failure vertexPath))
  /\ (fs vertexPath <> None -> fs fragmentPath = None ->
      Shader_new glCompileShader glLinkProgram fs vertexPath fragmentPath
      = throw (read_failure fragmentPath))
  /\ (forall vertexCode fragmentCode,
        fs vertexPath = Some vertexCode ->
        fs fragmentPath = Some fragmentCode ->
        Shader_new glCompileShader glLinkProgram fs vertexPath fragmentPath
        = ret (mk_shader
                 (glLinkProgram (glCompileShader GL_VERTEX_SHADER vertexCode)
                                (glCompileShader GL_FRAGMENT_SHADER fragmentCode))))
  /\ (forall frames e,
        Shader_new glCompileShader glLinkProgram fs
          VERTEX_SHADER_PATH FRAGMENT_SHADER_PATH = throw e ->
        main glCompileShader glLinkProgram true true fs frames = (Terminated e, [])).
Proof.
  split; [ exact (readFile_missing fs) | ].
  split; [ exact (readFile_found fs) | ].
  split; [ | split; [ | split ] ].
  4: { intros frames e He. unfold main. simpl negb. cbv iota.
       rewrite He. reflexivity. }
  all: unfold Shader_new, createShaderProgram, compileShader.
  - intros Hv. rewrite (readFile_missing fs vertexPath Hv). reflexivity.
  - intros Hv Hf. destruct (fs vertexPath) as [vertexCode |] eqn:Ev; [ | congruence ].
    rewrite (readFile_found fs vertexPath vertexCode Ev).
    rewrite (readFile_missing fs fragmentPath Hf). reflexivity.
  - intros vertexCode fragmentCode Hv Hf.
    rewrite (readFile_found fs vertexPath vertexCode Hv).
    rewrite (readFile_found fs fragmentPath fragmentCode Hf). reflexivity.
Qed.

Lemma missing_shader_file_is_fatal_witness :
  readFile vertex_shader_only VERTEX_SHADER_PATH = ret "void main() {}"%string
  /\ Shader_new (fun _ _ => 1%Z) (fun _ _ => 3%Z) vertex_shader_only
       VERTEX_SHADER_PATH FRAGMENT_SHADER_PATH
     = throw (read_failure FRAGMENT_SHADER_PATH)
  /\ main (fun _ _ => 1%Z) (fun _ _ => 3%Z) true true vertex_shader_only
          [[CursorPos 1 2]; []]
     = (Terminated (read_failure FRAGMENT_SHADER_PATH), []).
Proof.
  destruct (missing_shader_file_is_fatal (fun _ _ => 1%Z) (fun _ _ => 3%Z)
              vertex_shader_only VERTEX_SHADER_PATH FRAGMENT_SHADER_PATH)
    as (_ & Hfound & _ & Hfragment & _ & Hmain).
  split; [ | split ].
  - apply Hfound. reflexivity.
  - apply Hfragment; [ discriminate | reflexivity ].
  - apply Hmain. reflexivity.
Defined.

(** ** What each handler leaves alone *)

Lemma pointer_moves_cameraPos (evs : list (R * R)) :
  forall g, cameraPos (pointer_moves g evs) = cameraPos g.
Proof.
  unfold pointer_moves.
  induction evs as [| p evs IH]; intros g; simpl.
  - reflexivity.
  - rewrite IH. reflexivity.
Qed.

Lemma ticks_orientation (n : nat) (w : Window) :
  forall g, yaw (ticks n w g) = yaw g
            /\ pitch (ticks n w g) = pitch g
            /\ cameraFront (ticks n w g) = cameraFront g.
Proof.
  induction n as [| n IH]; intros g; cbn [ticks].
  - repeat split.
  - destruct (IH (snd (processInput w g))) as (Hy & Hp & Hf).
    destruct (move_camera_frame w g) as (Hf' & _ & _ & Hy' & Hp' & _).
    unfold processInput in *. simpl snd in *.
    rewrite Hy, Hp, Hf, Hy', Hp', Hf'. repeat split.
Qed.

(** C9.  [mouse_callback] never changes the camera position, for one event
    or for a sequence of them; [processInput] never changes yaw, pitch or
    the front vector, for one tick or for any number of them; and of the
    events the loop dispatches only a cursor position reaches the camera
    variables at all. *)
Theorem handlers_touch_disjoint_state :
  (forall g xpos ypos, cameraPos (mouse_callback g xpos ypos) = cameraPos g)
  /\ (forall g evs, cameraPos (pointer_moves g evs) = cameraPos g)
  /\ (forall w g,
        yaw (snd (processInput w g)) = yaw g
        /\ pitch (snd (processInput w g)) = pitch g
        /\ cameraFront (snd (processInput w g)) = cameraFront g)
  /\ (forall n w g,
        yaw (ticks n w g) = yaw g
        /\ pitch (ticks n w g) = pitch g
        /\ cameraFront (ticks n w g) = cameraFront g)
  /\ (forall e s,
        match e with
        | CursorPos _ _ =>
            cameraPos (globals (fst (dispatch e s))) = cameraPos (globals s)
        | _ => globals (fst (dispatch e s)) = globals s
        end).
Proof.
  split; [ reflexivity | ].
  split; [ intros g evs; apply pointer_moves_cameraPos | ].
  split.
  { intros w g. destruct (move_camera_frame w g) as (Hf & _ & _ & Hy & Hp & _).
    unfold processInput. simpl snd. repeat split; assumption. }
  split; [ intros n w g; apply ticks_orientation | ].
  intros e s. destruct e; reflexivity.
Qed.

(** ** Yaw *)

Lemma pointer_moves_yaw (evs : list (R * R)) :
  forall g, yaw (pointer_moves g evs) = yaw g + Rsum (xOffsets g evs).
Proof.
  unfold pointer_moves.
  induction evs as [| p evs IH]; intros g; simpl.
  - ring.
  - rewrite IH, mouse_callback_yaw. ring.
Qed.

Lemma sweep_yaw (d y : R) (n : nat) :
  forall g, firstMouse g = false ->
            yaw (pointer_moves g (sweep (lastX g) d y n))
            = yaw g + INR n * (d * sensitivity g).
Proof.
  induction n as [| n IH]; intros g Hf.
  - simpl. ring.
  - cbn [sweep]. unfold pointer_moves. cbn [fold_left fst snd].
    fold (pointer_moves (mouse_callback g (lastX g + d) y) (sweep (lastX g + d) d y n)).
    change (lastX g + d) with (lastX (mouse_callback g (lastX g + d) y)) at 2.
    rewrite IH by reflexivity.
    rewrite mouse_callback_yaw.
    destruct (later_sample_offsets g (lastX g + d) y Hf) as [Hx _].
    rewrite Hx, S_INR. simpl sensitivity. ring.
Qed.

(** * The handlers in binary32: what rounding changes *)

(** ** The first pointer sample *)

(** C3.  In binary32 the first call after start-up does rotate when a
    coordinate is not a [float].  At (1234 + 2^-20, 300 + 2^-20) the
    stores of lines 169-170 round [lastX] and [lastY] to 1234 and 300,
    line 175 subtracts the unrounded [ypos] from the rounded [lastY], and
    the pitch goes from 0 to -13421773 * 2^-47 (about -9.54e-8) instead of
    staying as it was.  The offsets of the call after it are then taken
    from the rounded coordinates (1234, 300), not from the coordinates of
    the first event. *)
Theorem first_sample_rotates_in_binary32
        (direction : fp.float -> fp.float -> binary32.vec3) :
  let g1 := binary32.mouse_callback direction binary32.initial_globals
              off_grid_x off_grid_y in
  binary32.firstMouse binary32.initial_globals = true
  /\ binary32.pitch binary32.initial_globals = S754_zero false
  /\ binary32.pitch g1 = S754_finite true 13421773 (-47)
  /\ binary32.lastX g1 = fp.float_of_Z 1234
  /\ binary32.lastY g1 = fp.float_of_Z 300
  /\ (forall x2 y2,
        binary32.xOffset g1 x2 y2
        = fp.to_float (fp.dmul (fp.dsub x2 (fp.double_of_Z 1234))
                               (fp.to_double (binary32.sensitivity g1)))
        /\ binary32.yOffset g1 x2 y2
           = fp.to_float (fp.dmul (fp.dsub (fp.double_of_Z 300) y2)
                                  (fp.to_double (binary32.sensitivity g1)))).
Proof.
  intros g1.
  assert (HX : binary32.lastX g1 = fp.float_of_Z 1234) by (vm_compute; reflexivity).
  assert (HY : binary32.lastY g1 = fp.float_of_Z 300) by (vm_compute; reflexivity).
  assert (DX : fp.to_double (fp.float_of_Z 1234) = fp.double_of_Z 1234)
    by (vm_compute; reflexivity).
  assert (DY : fp.to_double (fp.float_of_Z 300) = fp.double_of_Z 300)
    by (vm_compute; reflexivity).
  split; [ reflexivity | ].
  split; [ vm_compute; reflexivity | ].
  split; [ vm_compute; reflexivity | ].
  split; [ exact HX | split; [ exact HY | ] ].
  intros x2 y2. unfold binary32.xOffset, binary32.yOffset, binary32.take_first_sample.
  change (binary32.firstMouse g1) with false. cbv iota.
  rewrite HX, HY, DX, DY. split; reflexivity.
Qed.

Lemma dsub_self (v : fp.double) :
  fp.is_finite v = true -> fp.dsub v v = S754_zero false.
Proof.
  destruct v as [s | s | | s m e]; simpl; intros Hv; try discriminate.
  - destruct s; reflexivity.
  - unfold fp.dsub, SFsub. cbv zeta. rewrite Z.sub_diag. reflexivity.
Qed.

(** The defect is confined to coordinates that are not [float]s: when
    both coordinates of the first sample are finite and survive the
    conversion to [float] (whole pixels do), the first call from start-up
    leaves yaw and pitch as they were. *)
Lemma first_sample_on_floats_keeps_angles
      (direction : fp.float -> fp.float -> binary32.vec3) (xpos ypos : fp.double) :
  fp.is_finite xpos = true -> fp.is_finite ypos = true ->
  fp.to_double (fp.to_float xpos) = xpos ->
  fp.to_double (fp.to_float ypos) = ypos ->
  binary32.yaw (binary32.mouse_callback direction binary32.initial_globals xpos ypos)
  = binary32.yaw binary32.initial_globals
  /\ binary32.pitch (binary32.mouse_callback direction binary32.initial_globals xpos ypos)
     = binary32.pitch binary32.initial_globals.
Proof.
  intros Hx Hy Rx Ry.
  assert (Ex : binary32.xOffset binary32.initial_globals xpos ypos = S754_zero false).
  { unfold binary32.xOffset, binary32.take_first_sample.
    change (binary32.firstMouse binary32.initial_globals) with true. cbv iota.
    cbn [binary32.lastX]. rewrite Rx, (dsub_self xpos Hx). vm_compute. reflexivity. }
  assert (Ey : binary32.yOffset binary32.initial_globals xpos ypos = S754_zero false).
  { unfold binary32.yOffset, binary32.take_first_sample.
    change (binary32.firstMouse binary32.initial_globals) with true. cbv iota.
    cbn [binary32.lastY]. rewrite Ry, (dsub_self ypos Hy). vm_compute. reflexivity. }
  unfold binary32.mouse_callback. cbn [binary32.yaw binary32.pitch].
  rewrite Ex, Ey. split; vm_compute; reflexivity.
Qed.

(** ** Forward ticks *)

Lemma binary32_move_camera_frame (w : Window) (g : binary32.Globals) :
  binary32.cameraFront (binary32.move_camera w g) = binary32.cameraFront g
  /\ binary32.cameraUp (binary32.move_camera w g) = binary32.cameraUp g
  /\ binary32.cameraSpeed (binary32.move_camera w g) = binary32.cameraSpeed g.
Proof.
  unfold binary32.move_camera.
  destruct (keyW w), (keyS w), (keyA w), (keyD w); simpl; repeat split; reflexivity.
Qed.

Lemma binary32_forward_only_step (w : Window) (g : binary32.Globals) :
  keyW w = true -> keyS w = false -> keyA w = false -> keyD w = false ->
  snd (binary32.processInput w g)
  = binary32.set_cameraPos g
      (binary32.add (binary32.cameraPos g)
         (binary32.smul (binary32.cameraSpeed g) (binary32.cameraFront g))).
Proof.
  intros HW HS HA HD. unfold binary32.processInput, binary32.move_camera. simpl snd.
  rewrite HW, HS, HA, HD. reflexivity.
Qed.

Lemma binary32_forward_ticks (w : Window) :
  keyW w = true -> keyS w = false -> keyA w = false -> keyD w = false ->
  forall n g,
    binary32.cameraPos (binary32.ticks n w g)
    = Nat.iter n
        (fun p => binary32.add p
                    (binary32.smul (binary32.cameraSpeed g) (binary32.cameraFront g)))
        (binary32.cameraPos g).
Proof.
  intros HW HS HA HD. induction n as [| n IH]; intros g.
  - reflexivity.
  - cbn [binary32.ticks]. rewrite (binary32_forward_only_step w g HW HS HA HD).
    rewrite IH. rewrite Nat.iter_succ_r. reflexivity.
Qed.

Lemma binary32_forward_then_back (w : Window) (g : binary32.Globals) :
  keyW w = true -> keyS w = true ->
  let d := binary32.smul (binary32.cameraSpeed g) (binary32.cameraFront g) in
  binary32.move_camera w g
  = binary32.move_camera (set_key (set_key w KEY_W false) KEY_S false)
      (binary32.set_cameraPos g
         (binary32.sub (binary32.add (binary32.cameraPos g) d) d)).
Proof.
  intros HW HS d. unfold binary32.move_camera. rewrite HW, HS.
  simpl keyW. simpl keyS. simpl keyA. simpl keyD.
  destruct (keyA w), (keyD w); reflexivity.
Qed.

(** C4, as the program computes it.  From start-up five ticks with only W
    down leave z = 11953767 * 2^-22 (2.8500001430511475): the
    displacement is not 5 * speed * front, because each of the five
    additions rounds.  And after 104 such ticks a tick with W and S both
    down does not put the position back where it was. *)
Lemma forward_ticks_are_rounded :
  binary32.z (binary32.cameraPos (binary32.ticks 5 only_W binary32.initial_globals))
  = S754_finite false 11953767 (-22)
  /\ ~ (fp.to_Q (binary32.z (binary32.cameraPos
                   (binary32.ticks 5 only_W binary32.initial_globals)))
        - fp.to_Q (binary32.z (binary32.cameraPos binary32.initial_globals))
        == 5 * fp.to_Q (binary32.cameraSpeed binary32.initial_globals)
             * fp.to_Q (binary32.z (binary32.cameraFront binary32.initial_globals)))%Q
  /\ binary32.cameraPos
       (snd (binary32.processInput W_and_S
               (binary32.ticks 104 only_W binary32.initial_globals)))
     <> binary32.cameraPos (binary32.ticks 104 only_W binary32.initial_globals).
Proof.
  split; [ vm_compute; reflexivity | split ]; intros H; vm_compute in H; discriminate.
Qed.

(** C4, amended.  With only the forward key down, [n] ticks repeat one
    step [n] times, for every [n]: each tick replaces the position by the
    rounded sum of the position and the rounded product speed * front
    (the ticks change neither the speed nor the front).  On a tick with
    the forward and the back key both down the pair leaves the rounded
    difference of that sum and the same product.  When the additions and
    subtractions are exact (the real-number reading) the [n] steps add up
    to [n * speed * front] and the pair contributes nothing. *)
Theorem forward_ticks_repeat_a_rounded_step :
  (forall (n : nat) (w : Window) (g : binary32.Globals),
      keyW w = true -> keyS w = false -> keyA w = false -> keyD w = false ->
      binary32.cameraPos (binary32.ticks n w g)
      = Nat.iter n
          (fun p => binary32.add p
                      (binary32.smul (binary32.cameraSpeed g) (binary32.cameraFront g)))
          (binary32.cameraPos g)
      /\ binary32.cameraFront (binary32.ticks n w g) = binary32.cameraFront g
      /\ binary32.cameraSpeed (binary32.ticks n w g) = binary32.cameraSpeed g)
  /\ (forall (w : Window) (g : binary32.Globals),
        keyW w = true -> keyS w = true ->
        let d := binary32.smul (binary32.cameraSpeed g) (binary32.cameraFront g) in
        snd (binary32.processInput w g)
        = snd (binary32.processInput (set_key (set_key w KEY_W false) KEY_S false)
                 (binary32.set_cameraPos g
                    (binary32.sub (binary32.add (binary32.cameraPos g) d) d))))
  /\ (forall (n : nat) (w : Window) (g : Globals),
        keyW w = true -> keyS w = false -> keyA w = false -> keyD w = false ->
        cameraPos (ticks n w g)
        = glm.add (cameraPos g)
                  (glm.smul (INR n * cameraSpeed g) (cameraFront g)))
  /\ (forall (w : Window) (g : Globals),
        keyW w = true -> keyS w = true ->
        snd (processInput w g)
        = snd (processInput (set_key (set_key w KEY_W false) KEY_S false) g)).
Proof.
  split; [ | split; [ | split ] ].
  - intros n w g HW HS HA HD.
    split; [ apply (binary32_forward_ticks w HW HS HA HD) | ].
    revert g. induction n as [| n IH]; intros g; cbn [binary32.ticks].
    + split; reflexivity.
    + destruct (IH (snd (binary32.processInput w g))) as [Hf Hs].
      destruct (binary32_move_camera_frame w g) as (Hf' & _ & Hs').
      unfold binary32.processInput in *. simpl snd in *.
      rewrite Hf, Hs, Hf', Hs'. split; reflexivity.
  - intros w g HW HS d. unfold binary32.processInput. simpl snd.
    apply (binary32_forward_then_back w g HW HS).
  - intros n w g HW HS HA HD.
    apply (forward_only_ticks w HW HS HA HD n g).
  - exact opposing_keys_cancel.
Qed.

(** Five forward ticks from start-up are five rounded steps, and end 75
    units of 2^-29 away from 3 - 5 * speed. *)
Lemma forward_ticks_repeat_a_rounded_step_witness :
  binary32.cameraPos (binary32.ticks 5 only_W binary32.initial_globals)
  = Nat.iter 5
      (fun p => binary32.add p
                  (binary32.smul (binary32.cameraSpeed binary32.initial_globals)
                                 (binary32.cameraFront binary32.initial_globals)))
      (binary32.cameraPos binary32.initial_globals).
Proof.
  destruct forward_ticks_repeat_a_rounded_step as [Hticks _].
  apply (Hticks 5%nat only_W binary32.initial_globals); reflexivity.
Defined.

(** ** The yaw accumulator *)

Lemma binary32_pointer_moves_yaw
      (direction : fp.float -> fp.float -> binary32.vec3)
      (evs : list (fp.double * fp.double)) :
  forall g,
    binary32.yaw (binary32.pointer_moves direction g evs)
    = fold_left fp.add (binary32.xOffsets direction g evs) (binary32.yaw g).
Proof.
  unfold binary32.pointer_moves.
  induction evs as [| p evs IH]; intros g; simpl.
  - reflexivity.
  - rewrite IH. reflexivity.
Qed.

Lemma pointer_moves_yaw_lower (d : R) (evs : list (R * R)) :
  forall g,
    Forall (fun offset => d <= offset) (xOffsets g evs) ->
    yaw g + INR (List.length evs) * d <= yaw (pointer_moves g evs).
Proof.
  induction evs as [| p evs IH]; intros g Hall.
  - simpl. lra.
  - cbn [xOffsets] in Hall. inversion Hall as [| ? ? Hp Hrest]; subst.
    specialize (IH (mouse_callback g (fst p) (snd p)) Hrest).
    change (pointer_moves g (p :: evs))
      with (pointer_moves (mouse_callback g (fst p) (snd p)) evs).
    rewrite mouse_callback_yaw in IH.
    change (List.length (p :: evs)) with (S (List.length evs)).
    rewrite S_INR. lra.
Qed.

(** C10, as the program computes it.  The pointer leaves x = 400 on whole
    pixels and returns to it: the yaw ends at -11796481 * 2^-17 (about
    -90.0000076), and the change of the yaw is not the sum of the four
    offsets the calls computed.  And far to the right, where the yaw is
    2^28, a call whose offset is positive (about 7.6) leaves the yaw as it
    was. *)
Lemma yaw_sum_is_rounded :
  binary32.yaw (binary32.pointer_moves stand_in_front binary32.initial_globals
                  there_and_back)
  = S754_finite true 11796481 (-17)
  /\ ~ (fp.to_Q (binary32.yaw (binary32.pointer_moves stand_in_front
                                 binary32.initial_globals there_and_back))
        - fp.to_Q (binary32.yaw binary32.initial_globals)
        == fold_right Qplus 0
             (map fp.to_Q (binary32.xOffsets stand_in_front binary32.initial_globals
                             there_and_back)))%Q
  /\ binary32.yaw (binary32.pointer_moves stand_in_front binary32.initial_globals
                     far_right)
     = fp.float_of_Z (2 ^ 28)
  /\ binary32.xOffset (binary32.pointer_moves stand_in_front binary32.initial_globals
                         far_right)
       (fp.double_of_Z 2684355660) (fp.double_of_Z 0)
     = S754_finite false 15938355 (-21)
  /\ binary32.yaw (binary32.mouse_callback stand_in_front
                     (binary32.pointer_moves stand_in_front binary32.initial_globals
                        far_right)
                     (fp.double_of_Z 2684355660) (fp.double_of_Z 0))
     = fp.float_of_Z (2 ^ 28).
Proof.
  split; [ vm_compute; reflexivity | ].
  split; [ intros H; vm_compute in H; discriminate | ].
  repeat split; vm_compute; reflexivity.
Qed.

(** C10, amended.  Nothing clamps, wraps or normalises the yaw: every
    pointer call replaces it by the rounded binary32 sum of the yaw and
    the offset of the call, so after any sequence of events it is the
    running sum of the offsets, rounded at each step, and it is not
    reduced modulo 360 (fifty moves of 100 pixels from start-up give
    exactly 410).  When the additions are exact (the real-number
    reading) the yaw is the yaw before plus the sum of the offsets; it
    then grows by at least [n * d] over [n] events whose offsets are all
    at least [d], and so passes every bound. *)
Theorem yaw_is_an_unwrapped_running_sum :
  (forall direction g evs,
      binary32.yaw (binary32.pointer_moves direction g evs)
      = fold_left fp.add (binary32.xOffsets direction g evs) (binary32.yaw g))
  /\ (forall direction,
        binary32.yaw (binary32.pointer_moves direction binary32.initial_globals
                        (pixel 400 300 :: sweep_pixels 400 100 300 50))
        = fp.float_of_Z 410)
  /\ (forall g evs, yaw (pointer_moves g evs) = yaw g + Rsum (xOffsets g evs))
  /\ (forall g evs d,
        Forall (fun offset => d <= offset) (xOffsets g evs) ->
        yaw g + INR (List.length evs) * d <= yaw (pointer_moves g evs))
  /\ (forall g d y bound,
        firstMouse g = false ->
        0 < d * sensitivity g ->
        exists n, bound < yaw (pointer_moves g (sweep (lastX g) d y n))).
Proof.
  split; [ intros direction g evs; apply binary32_pointer_moves_yaw | ].
  split; [ intros direction; vm_compute; reflexivity | ].
  split; [ intros g evs; apply pointer_moves_yaw | ].
  split; [ intros g evs d; apply pointer_moves_yaw_lower | ].
  intros g d y bound Hf Hpos.
  destruct (INR_unbounded ((bound - yaw g) / (d * sensitivity g))) as [n Hn].
  exists n. rewrite (sweep_yaw d y n g Hf).
  apply (Rmult_lt_compat_r (d * sensitivity g)) in Hn; [ | exact Hpos ].
  unfold Rdiv in Hn. rewrite Rmult_assoc, Rinv_l, Rmult_1_r in Hn by lra.
  lra.
Qed.

(** In the real-number reading, two moves of 150 and 250 pixels from the
    first sample add at least 2 * 15 degrees. *)
Lemma yaw_is_an_unwrapped_running_sum_witness :
  yaw (mouse_callback initial_globals 400 300) + INR 2 * 15
  <= yaw (pointer_moves (mouse_callback initial_globals 400 300)
            [(550, 300); (800, 300)]).
Proof.
  destruct yaw_is_an_unwrapped_running_sum as (_ & _ & _ & Hlower & _).
  apply (Hlower (mouse_callback initial_globals 400 300) [(550, 300); (800, 300)] 15).
  cbn [xOffsets fst snd].
  destruct (later_sample_offsets (mouse_callback initial_globals 400 300) 550 300 eq_refl)
    as [H1 _].
  destruct (later_sample_offsets
              (mouse_callback (mouse_callback initial_globals 400 300) 550 300)
              800 300 eq_refl) as [H2 _].
  rewrite H1, H2. simpl.
  repeat constructor; lra.
Defined.

(** * Further properties of the handlers *)

(** ** Pointer samples *)



(** * Further properties of the camera *)

(** ** The camera invariant *)

Lemma initial_globals_invariant : camera_invariant initial_globals.
Proof.
  unfold camera_invariant. simpl.
  split; [ left; reflexivity | ]. repeat split; lra.
Qed.

Lemma mouse_callback_invariant (g : Globals) (xpos ypos : R) :
  camera_invariant g -> camera_invariant (mouse_callback g xpos ypos).
Proof.
  intros (_ & _ & Hup & Hspeed & Hsens).
  unfold camera_invariant.
  split; [ right; apply mouse_callback_front | ].
  split; [ apply mouse_callback_pitch_range | ].
  repeat split; assumption.
Qed.

Lemma move_camera_invariant (w : Window) (g : Globals) :
  camera_invariant g -> camera_invariant (move_camera w g).
Proof.
  intros (Hfront & Hp & Hup & Hspeed & Hsens).
  destruct (move_camera_frame w g)
    as (Ef & Eu & Es & Ey & Ep & _ & _ & _ & Esens).
  unfold camera_invariant. rewrite Ef, Eu, Es, Ey, Ep, Esens.
  repeat split; try assumption; lra.
Qed.

Lemma dispatch_invariant (e : Event) (s : World) :
  camera_invariant (globals s) -> camera_invariant (globals (fst (dispatch e s))).
Proof.
  intros Hinv. destruct e as [xpos ypos | k v | | width height]; simpl;
    try exact Hinv.
  apply mouse_callback_invariant. exact Hinv.
Qed.

Lemma glfwPollEvents_invariant (evs : list Event) :
  forall s, camera_invariant (globals s) ->
            camera_invariant (globals (fst (glfwPollEvents evs s))).
Proof.
  induction evs as [| e evs IH]; intros s Hinv; simpl.
  - exact Hinv.
  - pose proof (dispatch_invariant e s Hinv) as H1.
    destruct (dispatch e s) as [s1 c1]. simpl in H1.
    specialize (IH s1 H1).
    destruct (glfwPollEvents evs s1) as [s2 c2]. exact IH.
Qed.

Lemma loop_body_invariant (evs : list Event) (s : World) :
  camera_invariant (globals s) ->
  camera_invariant (globals (fst (loop_body evs s))).
Proof.
  intros Hinv. unfold loop_body, processInput.
  pose proof (move_camera_invariant (window s) (globals s) Hinv) as H1.
  set (w1 := if keyEscape (window s) then _ else _).
  pose proof (glfwPollEvents_invariant evs
                (mk_world w1 (move_camera (window s) (globals s))) H1) as H2.
  destruct (glfwPollEvents evs _) as [s2 c2]. exact H2.
Qed.

Lemma main_loop_invariant (frames : list (list Event)) :
  forall s, camera_invariant (globals s) ->
            camera_invariant (globals (fst (main_loop frames s))).
Proof.
  induction frames as [| evs frames IH]; intros s Hinv; simpl.
  - exact Hinv.
  - destruct (shouldClose (window s)); [ exact Hinv | ].
    pose proof (loop_body_invariant evs s Hinv) as H1.
    destruct (loop_body evs s) as [s1 c1]. simpl in H1.
    specialize (IH s1 H1).
    destruct (main_loop frames s1) as [s2 c2]. exact IH.
Qed.

Lemma invariant_cross_pos (g : Globals) :
  camera_invariant g ->
  0 < glm.dot (glm.cross (cameraFront g) (cameraUp g))
              (glm.cross (cameraFront g) (cameraUp g)).
Proof.
  intros ([Hfront | Hfront] & Hp & Hup & _); rewrite Hup, Hfront.
  - rewrite cross_world_up. unfold glm.dot. simpl. lra.
  - rewrite normalize_direction, (cross_direction_dot (yaw g) (pitch g)).
    pose proof (cos_pitch_pos (pitch g) Hp). nra.
Qed.

(** X5.  Every state the program can be in, after any number of loop
    iterations over any events from start-up, satisfies the camera
    invariant: the front is the initial (0,0,-1) or the one the last
    pointer event derived from yaw and pitch, the pitch is within
    [-89, 89], and up, speed and sensitivity still hold their initial
    values; so in every such state the cross product the strafe keys
    normalise is not null. *)
Theorem reachable_states_keep_invariant (frames : list (list Event)) :
  let g := globals (fst (main_loop frames initial_world)) in
  camera_invariant g
  /\ 0 < glm.dot (glm.cross (cameraFront g) (cameraUp g))
                 (glm.cross (cameraFront g) (cameraUp g)).
Proof.
  intros g.
  assert (Hinv : camera_invariant g).
  { apply main_loop_invariant. apply initial_globals_invariant. }
  split; [ exact Hinv | apply invariant_cross_pos; exact Hinv ].
Qed.

(** ** Strafing in binary32 *)

Lemma fp_mul_zero_r (a z0 : fp.float) :
  fp.is_finite a = true -> fp.is_zero z0 = true -> fp.is_zero (fp.mul a z0) = true.
Proof. destruct a, z0; simpl; intros; try discriminate; reflexivity. Qed.

Lemma fp_mul_zero_l (z0 a : fp.float) :
  fp.is_zero z0 = true -> fp.is_finite a = true -> fp.is_zero (fp.mul z0 a) = true.
Proof. destruct a, z0; simpl; intros; try discriminate; reflexivity. Qed.

Lemma fp_sub_zeros (a b : fp.float) :
  fp.is_zero a = true -> fp.is_zero b = true -> fp.is_zero (fp.sub a b) = true.
Proof.
  destruct a as [sa | | |], b as [sb | | |]; simpl; intros; try discriminate.
  destruct sa, sb; reflexivity.
Qed.

Lemma fp_add_zero (v z0 : fp.float) :
  fp.is_zero z0 = true -> same_value (fp.add v z0) v.
Proof.
  unfold same_value.
  destruct z0 as [sz | | |]; simpl; intros; try discriminate.
  destruct v as [sv | sv | |]; simpl;
    [ right; destruct sv, sz; split; reflexivity | left .. ]; reflexivity.
Qed.

Lemma fp_sub_zero (v z0 : fp.float) :
  fp.is_zero z0 = true -> same_value (fp.sub v z0) v.
Proof.
  unfold same_value.
  destruct z0 as [sz | | |]; simpl; intros; try discriminate.
  destruct v as [sv | sv | |]; simpl;
    [ right; destruct sv, sz; split; reflexivity | left .. ]; reflexivity.
Qed.

Lemma same_value_trans (a b c : fp.float) :
  same_value a b -> same_value b c -> same_value a c.
Proof.
  unfold same_value. intros [Hab | [Ha Hb]] [Hbc | [Hb' Hc]]; subst.
  - left; reflexivity.
  - right; split; assumption.
  - right; split; assumption.
  - right; split; assumption.
Qed.

Lemma fp_add_nan (v : fp.float) : fp.add v S754_nan = S754_nan.
Proof. destruct v; reflexivity. Qed.

Lemma fp_sub_nan (v : fp.float) : fp.sub v S754_nan = S754_nan.
Proof. destruct v; reflexivity. Qed.

Lemma fp_square_zero (z0 : fp.float) :
  fp.is_zero z0 = true -> fp.mul z0 z0 = S754_zero false.
Proof. destruct z0 as [s | | |]; simpl; intros; try discriminate. destruct s; reflexivity. Qed.

Lemma fp_zero_times_infinity (z0 : fp.float) :
  fp.is_zero z0 = true -> fp.mul z0 (S754_infinity false) = S754_nan.
Proof. destruct z0; simpl; intros; try discriminate; reflexivity. Qed.

Lemma fp_zero_is_finite (z0 : fp.float) : fp.is_zero z0 = true -> fp.is_finite z0 = true.
Proof. destruct z0; simpl; intros; try discriminate; reflexivity. Qed.

(** What a tick without W and S does to the position. *)
Lemma binary32_strafe_only (w : Window) (g : binary32.Globals) :
  keyW w = false -> keyS w = false ->
  let r := binary32.muls
             (binary32.normalize (binary32.cross (binary32.cameraFront g)
                                                 (binary32.cameraUp g)))
             (binary32.cameraSpeed g) in
  binary32.cameraPos (snd (binary32.processInput w g))
  = if keyA w
    then if keyD w
         then binary32.add (binary32.sub (binary32.cameraPos g) r) r
         else binary32.sub (binary32.cameraPos g) r
    else if keyD w
         then binary32.add (binary32.cameraPos g) r
         else binary32.cameraPos g.
Proof.
  intros HW HS r. unfold binary32.processInput. simpl snd.
  unfold binary32.move_camera. rewrite HW, HS.
  destruct (keyA w), (keyD w); reflexivity.
Qed.

(** X7.  Strafing in binary32, with the world up axis (0,1,0), finite front
    and speed, and W and S up.  When the inverse square root that
    [glm::normalize] multiplies by is finite (the cross product of front
    and up is not null), a tick leaves the height as it was: the y
    coordinate of the position compares equal to the old one.  When the
    front is parallel to up (its x and z are zero) and A or D is down,
    the cross product is null, its normalisation multiplies zero by
    infinity, and the tick turns every coordinate of the position into
    NaN. *)
Theorem strafe_keeps_height_unless_parallel (w : Window) (g : binary32.Globals) :
  keyW w = false -> keyS w = false ->
  binary32.cameraUp g
  = binary32.mk_vec3 (fp.float_of_Z 0) (fp.float_of_Z 1) (fp.float_of_Z 0) ->
  fp.is_finite (binary32.x (binary32.cameraFront g)) = true ->
  fp.is_finite (binary32.y (binary32.cameraFront g)) = true ->
  fp.is_finite (binary32.z (binary32.cameraFront g)) = true ->
  fp.is_finite (binary32.cameraSpeed g) = true ->
  let c := binary32.cross (binary32.cameraFront g) (binary32.cameraUp g) in
  (fp.is_finite (binary32.inversesqrt (binary32.dot c c)) = true ->
   same_value (binary32.y (binary32.cameraPos (snd (binary32.processInput w g))))
              (binary32.y (binary32.cameraPos g)))
  /\ (fp.is_zero (binary32.x (binary32.cameraFront g)) = true ->
      fp.is_zero (binary32.z (binary32.cameraFront g)) = true ->
      keyA w || keyD w = true ->
      binary32.cameraPos (snd (binary32.processInput w g))
      = binary32.mk_vec3 S754_nan S754_nan S754_nan).
Proof.
  intros HW HS Hup Hfx Hfy Hfz Hv c.
  rewrite (binary32_strafe_only w g HW HS). cbv zeta. fold c.
  destruct (binary32.cameraFront g) as [fx fy fz] eqn:Hfront. simpl in Hfx, Hfy, Hfz.
  assert (Hzero : fp.is_zero (fp.float_of_Z 0) = true) by reflexivity.
  assert (Hone : fp.is_finite (fp.float_of_Z 1) = true) by reflexivity.
  assert (Hcx : binary32.x c
                = fp.sub (fp.mul fy (fp.float_of_Z 0)) (fp.mul (fp.float_of_Z 1) fz))
    by (unfold c; rewrite Hup; reflexivity).
  assert (Hcy : binary32.y c
                = fp.sub (fp.mul fz (fp.float_of_Z 0)) (fp.mul (fp.float_of_Z 0) fx))
    by (unfold c; rewrite Hup; reflexivity).
  assert (Hcz : binary32.z c
                = fp.sub (fp.mul fx (fp.float_of_Z 1)) (fp.mul (fp.float_of_Z 0) fy))
    by (unfold c; rewrite Hup; reflexivity).
  assert (Zcy : fp.is_zero (binary32.y c) = true).
  { rewrite Hcy. apply fp_sub_zeros;
      [ apply fp_mul_zero_r | apply fp_mul_zero_l ]; assumption. }
  split.
  - intros Hinv.
    set (r := binary32.muls (binary32.normalize c) (binary32.cameraSpeed g)).
    assert (Zr : fp.is_zero (binary32.y r) = true).
    { unfold r, binary32.muls, binary32.normalize. simpl.
      apply fp_mul_zero_l; [ | exact Hv ].
      apply fp_mul_zero_l; assumption. }
    destruct (keyA w), (keyD w); simpl.
    + apply (same_value_trans _ (fp.sub (binary32.y (binary32.cameraPos g)) (binary32.y r))).
      * apply fp_add_zero. exact Zr.
      * apply fp_sub_zero. exact Zr.
    + apply fp_sub_zero. exact Zr.
    + apply fp_add_zero. exact Zr.
    + left. reflexivity.
  - intros Zfx Zfz Hkey.
    assert (Zcx : fp.is_zero (binary32.x c) = true).
    { rewrite Hcx. apply fp_sub_zeros;
        [ apply fp_mul_zero_r | apply fp_mul_zero_r ]; assumption. }
    assert (Zcz : fp.is_zero (binary32.z c) = true).
    { rewrite Hcz. apply fp_sub_zeros;
        [ apply fp_mul_zero_l | apply fp_mul_zero_l ]; assumption. }
    assert (Hdot : binary32.dot c c = S754_zero false).
    { unfold binary32.dot.
      rewrite (fp_square_zero _ Zcx), (fp_square_zero _ Zcy), (fp_square_zero _ Zcz).
      reflexivity. }
    assert (Hinv : binary32.inversesqrt (binary32.dot c c) = S754_infinity false)
      by (rewrite Hdot; vm_compute; reflexivity).
    assert (Hr : binary32.muls (binary32.normalize c) (binary32.cameraSpeed g)
                 = binary32.mk_vec3 S754_nan S754_nan S754_nan).
    { unfold binary32.normalize. rewrite Hinv. unfold binary32.muls.
      cbn [binary32.x binary32.y binary32.z].
      rewrite (fp_zero_times_infinity _ Zcx), (fp_zero_times_infinity _ Zcy),
        (fp_zero_times_infinity _ Zcz). reflexivity. }
    rewrite Hr.
    destruct (keyA w), (keyD w); simpl in Hkey; try discriminate;
      unfold binary32.add, binary32.sub; cbn [binary32.x binary32.y binary32.z];
      rewrite ?fp_sub_nan, ?fp_add_nan; reflexivity.
Qed.

(** At start-up the cross product is (1,0,0) and D keeps the height 0;
    with the front turned straight up, D loses the position. *)
Lemma strafe_keeps_height_unless_parallel_witness :
  let D_only := mk_window false false false false false true in
  let looking_up :=
    {| binary32.cameraPos := binary32.cameraPos binary32.initial_globals;
       binary32.cameraFront :=
         binary32.mk_vec3 (fp.float_of_Z 0) (fp.float_of_Z 1) (fp.float_of_Z 0);
       binary32.cameraUp := binary32.cameraUp binary32.initial_globals;
       binary32.cameraSpeed := binary32.cameraSpeed binary32.initial_globals;
       binary32.yaw := binary32.yaw binary32.initial_globals;
       binary32.pitch := binary32.pitch binary32.initial_globals;
       binary32.lastX := binary32.lastX binary32.initial_globals;
       binary32.lastY := binary32.lastY binary32.initial_globals;
       binary32.firstMouse := false;
       binary32.sensitivity := binary32.sensitivity binary32.initial_globals |} in
  same_value
    (binary32.y (binary32.cameraPos
                   (snd (binary32.processInput D_only binary32.initial_globals))))
    (fp.float_of_Z 0)
  /\ binary32.cameraPos (snd (binary32.processInput D_only looking_up))
     = binary32.mk_vec3 S754_nan S754_nan S754_nan.
Proof.
  intros D_only looking_up. split.
  - apply (strafe_keeps_height_unless_parallel D_only binary32.initial_globals);
      reflexivity.
  - apply (strafe_keeps_height_unless_parallel D_only looking_up); reflexivity.
Defined.

(** * Further properties of the frame loop *)

Lemma glfwPollEvents_app (evs1 evs2 : list Event) :
  forall s,
    glfwPollEvents (evs1 ++ evs2) s
    = let (s1, c1) := glfwPollEvents evs1 s in
      let (s2, c2) := glfwPollEvents evs2 s1 in
      (s2, c1 ++ c2).
Proof.
  induction evs1 as [| e evs1 IH]; intros s; simpl.
  - destruct (glfwPollEvents evs2 s); reflexivity.
  - destruct (dispatch e s) as [s1 c1]. rewrite IH.
    destruct (glfwPollEvents evs1 s1) as [s2 c2].
    destruct (glfwPollEvents evs2 s2) as [s3 c3].
    rewrite app_assoc. reflexivity.
Qed.

Lemma glfwPollEvents_calls (evs : list Event) :
  forall s, snd (glfwPollEvents evs s) = viewports_of evs.
Proof.
  induction evs as [| e evs IH]; intros s; simpl.
  - reflexivity.
  - destruct (dispatch e s) as [s1 c1] eqn:Hd.
    specialize (IH s1). destruct (glfwPollEvents evs s1) as [s2 c2].
    simpl in *. rewrite IH.
    destruct e; simpl in Hd; inversion Hd; reflexivity.
Qed.

Lemma viewports_of_kinds (evs : list Event) :
  filter is_clear (viewports_of evs) = []
  /\ filter is_draw (viewports_of evs) = []
  /\ filter is_swap (viewports_of evs) = [].
Proof.
  induction evs as [| e evs (H1 & H2 & H3)]; simpl.
  - repeat split.
  - destruct e; simpl; repeat split; assumption.
Qed.

Lemma glfwPollEvents_close_flag (evs : list Event) :
  forall s, ~ In CloseRequest evs ->
            shouldClose (window (fst (glfwPollEvents evs s))) = shouldClose (window s).
Proof.
  induction evs as [| e evs IH]; intros s Hno; simpl.
  - reflexivity.
  - assert (He : shouldClose (window (fst (dispatch e s))) = shouldClose (window s)).
    { destruct e as [xpos ypos | k v | | width height]; simpl; try reflexivity.
      - destruct k; reflexivity.
      - exfalso. apply Hno. left. reflexivity. }
    destruct (dispatch e s) as [s1 c1]. simpl in He.
    assert (Hno' : ~ In CloseRequest evs) by (intros H; apply Hno; right; exact H).
    specialize (IH s1 Hno'). destruct (glfwPollEvents evs s1) as [s2 c2].
    simpl in *. congruence.
Qed.

Lemma glfwPollEvents_close_request (evs : list Event) :
  forall s, In CloseRequest evs ->
            shouldClose (window (fst (glfwPollEvents evs s))) = true.
Proof.
  induction evs as [| e evs IH]; intros s Hin; simpl.
  - destruct Hin.
  - destruct Hin as [He | Hin].
    + subst e. simpl.
      pose proof (glfwPollEvents_keeps_close evs
                    (mk_world (glfwSetWindowShouldClose (window s) true) (globals s))
                    eq_refl) as H.
      destruct (glfwPollEvents evs _) as [s2 c2]. exact H.
    + destruct (dispatch e s) as [s1 c1].
      specialize (IH s1 Hin). destruct (glfwPollEvents evs s1) as [s2 c2]. exact IH.
Qed.

Lemma glfwPollEvents_escape_up (evs : list Event) :
  forall s, forallb (fun e => negb (is_close_signal e)) evs = true ->
            keyEscape (window s) = false ->
            keyEscape (window (fst (glfwPollEvents evs s))) = false
            /\ ~ In CloseRequest evs.
Proof.
  induction evs as [| e evs IH]; intros s Hno Hesc; simpl in *.
  - split; [ exact Hesc | tauto ].
  - apply andb_true_iff in Hno. destruct Hno as [He Hno].
    assert (H1 : keyEscape (window (fst (dispatch e s))) = false /\ e <> CloseRequest).
    { destruct e as [xpos ypos | k v | | width height]; simpl in *;
        try (split; [ exact Hesc | discriminate ]).
      destruct k, v; simpl in *; try discriminate;
        (split; [ first [ exact Hesc | reflexivity ] | discriminate ]). }
    destruct H1 as [H1 Hne].
    destruct (dispatch e s) as [s1 c1]. simpl in H1.
    destruct (IH s1 Hno H1) as [H2 Hnot].
    destruct (glfwPollEvents evs s1) as [s2 c2]. simpl in *.
    split; [ exact H2 | ].
    intros [Heq | Hin]; [ apply Hne; exact Heq | apply Hnot; exact Hin ].
Qed.

Lemma processInput_escape_up (w : Window) (g : Globals) :
  keyEscape w = false -> fst (processInput w g) = w.
Proof. intros He. unfold processInput. rewrite He. reflexivity. Qed.

Lemma loop_body_window (evs : list Event) (s : World) :
  keyEscape (window s) = false ->
  fst (loop_body evs s)
  = fst (glfwPollEvents evs (mk_world (window s) (move_camera (window s) (globals s)))).
Proof.
  intros He. unfold loop_body, processInput. rewrite He.
  destruct (glfwPollEvents evs _) as [s2 c2]. reflexivity.
Qed.

Lemma loop_body_counts (evs : list Event) (s : World) :
  filter is_clear (snd (loop_body evs s)) = [glClear]
  /\ filter is_swap (snd (loop_body evs s)) = [glfwSwapBuffers].
Proof.
  unfold loop_body.
  destruct (processInput (window s) (globals s)) as [w1 g1].
  pose proof (glfwPollEvents_calls evs (mk_world w1 g1)) as Hc.
  destruct (glfwPollEvents evs (mk_world w1 g1)) as [s2 c2].
  simpl in Hc. subst c2.
  destruct (viewports_of_kinds evs) as (H1 & _ & H3).
  simpl. rewrite H1, H3. split; reflexivity.
Qed.

(** X10.  The loop ends only on a close signal: from a running state with
    Escape up, if no batch of events holds a close request or an Escape
    press, every iteration runs: the loop is still Running after the last
    batch, with Escape up, and has drawn once per batch. *)
Theorem loop_runs_without_close_signal (frames : list (list Event)) :
  forall s,
    loop_state s = Running ->
    keyEscape (window s) = false ->
    Forall (fun evs => forallb (fun e => negb (is_close_signal e)) evs = true) frames ->
    loop_state (fst (main_loop frames s)) = Running
    /\ keyEscape (window (fst (main_loop frames s))) = false
    /\ List.length (filter is_draw (snd (main_loop frames s))) = List.length frames.
Proof.
  induction frames as [| evs frames IH]; intros s Hrun Hesc Hall.
  - simpl. repeat split; assumption.
  - inversion Hall as [| ? ? Hevs Hrest]; subst.
    assert (Hopen : shouldClose (window s) = false).
    { unfold loop_state in Hrun. destruct (shouldClose (window s)); congruence. }
    cbn [main_loop]. rewrite Hopen.
    pose proof (loop_body_window evs s Hesc) as Hw.
    pose proof (loop_body_one_draw evs s) as Hd.
    set (s0 := mk_world (window s) (move_camera (window s) (globals s))) in Hw.
    destruct (glfwPollEvents_escape_up evs s0 Hevs Hesc) as [Hesc1 Hnot].
    pose proof (glfwPollEvents_close_flag evs s0 Hnot) as Hflag.
    destruct (loop_body evs s) as [s1 c1]. simpl in Hw, Hd. subst s1.
    assert (Hrun1 : loop_state (fst (glfwPollEvents evs s0)) = Running).
    { unfold loop_state. rewrite Hflag. simpl. rewrite Hopen. reflexivity. }
    destruct (IH _ Hrun1 Hesc1 Hrest) as (H1 & H2 & H3).
    destruct (main_loop frames (fst (glfwPollEvents evs s0))) as [s2 c2].
    simpl in *. rewrite filter_app, length_app, Hd, H3.
    repeat split; assumption.
Qed.

Lemma loop_runs_without_close_signal_witness :
  List.length (filter is_draw (snd (main_loop
     [[CursorPos 1 2; KeyChange KEY_W true]; [FramebufferSize 640 480];
      [KeyChange KEY_ESCAPE false]] initial_world))) = 3%nat.
Proof.
  apply (loop_runs_without_close_signal
     [[CursorPos 1 2; KeyChange KEY_W true]; [FramebufferSize 640 480];
      [KeyChange KEY_ESCAPE false]] initial_world).
  - reflexivity.
  - reflexivity.
  - repeat constructor.
Defined.

(** X11.  A close request delivered while a running iteration polls its
    events ends the loop like Escape does: the state at the next loop
    test is Closing, the run consists of that iteration alone, and its
    only draw call is the one issued before the request arrived. *)
Theorem close_request_closes_loop (evs : list Event) (frames : list (list Event))
        (s : World) :
  loop_state s = Running ->
  In CloseRequest evs ->
  let s1 := fst (loop_body evs s) in
  loop_state s1 = Closing
  /\ main_loop (evs :: frames) s = loop_body evs s
  /\ filter is_draw (snd (main_loop (evs :: frames) s)) = [glDrawArrays GL_TRIANGLES 0 6].
Proof.
  intros Hrun Hin s1.
  assert (Hopen : shouldClose (window s) = false).
  { unfold loop_state in Hrun. destruct (shouldClose (window s)); congruence. }
  assert (Hclosed : shouldClose (window s1) = true).
  { unfold s1, loop_body.
    destruct (processInput (window s) (globals s)) as [w1 g1].
    pose proof (glfwPollEvents_close_request evs (mk_world w1 g1) Hin) as H.
    destruct (glfwPollEvents evs (mk_world w1 g1)) as [s2 c2]. exact H. }
  assert (Hrunning : main_loop (evs :: frames) s = loop_body evs s).
  { cbn [main_loop]. rewrite Hopen.
    pose proof (main_loop_closing frames s1 Hclosed) as Hstop. unfold s1 in Hstop.
    destruct (loop_body evs s) as [s' c']. simpl in Hstop. rewrite Hstop.
    rewrite app_nil_r. reflexivity. }
  repeat split.
  - unfold loop_state. rewrite Hclosed. reflexivity.
  - exact Hrunning.
  - rewrite Hrunning. apply loop_body_one_draw.
Qed.

Lemma close_request_closes_loop_witness :
  main_loop [[CursorPos 5 5; CloseRequest]; [KeyChange KEY_W true]; []] initial_world
  = loop_body [CursorPos 5 5; CloseRequest] initial_world.
Proof.
  apply (close_request_closes_loop [CursorPos 5 5; CloseRequest]
           [[KeyChange KEY_W true]; []] initial_world).
  - reflexivity.
  - right. left. reflexivity.
Defined.

(** X12.  In every run of the loop, from any state and over any events,
    the frames are whole: there are as many clears as draws as buffer
    swaps, one of each per iteration that ran, and never more iterations
    than batches of events. *)
Theorem frames_are_whole (frames : list (list Event)) :
  forall s,
    let calls := snd (main_loop frames s) in
    List.length (filter is_clear calls) = List.length (filter is_draw calls)
    /\ List.length (filter is_swap calls) = List.length (filter is_draw calls)
    /\ (List.length (filter is_draw calls) <= List.length frames)%nat.
Proof.
  induction frames as [| evs frames IH]; intros s; simpl.
  - repeat split; lia.
  - destruct (shouldClose (window s)); [ simpl; repeat split; lia | ].
    pose proof (loop_body_one_draw evs s) as Hd.
    destruct (loop_body_counts evs s) as [Hc Hs].
    destruct (loop_body evs s) as [s1 c1]. simpl in Hd, Hc, Hs.
    specialize (IH s1). destruct (main_loop frames s1) as [s2 c2].
    simpl in *. rewrite !filter_app, !length_app, Hd, Hc, Hs. simpl.
    destruct IH as (H1 & H2 & H3). repeat split; lia.
Qed.

(** X13.  The keyboard is sampled once per frame: if Escape goes down
    and up again within the events of one poll (the batch ends with its
    release and holds no close request), the press is never seen; the
    loop is still Running with Escape up and the next iteration draws. *)
Theorem escape_tap_within_a_frame_is_missed (evs evs2 : list Event) (s : World) :
  loop_state s = Running ->
  keyEscape (window s) = false ->
  ~ In CloseRequest evs ->
  let tap := evs ++ [KeyChange KEY_ESCAPE false] in
  loop_state (fst (loop_body tap s)) = Running
  /\ keyEscape (window (fst (loop_body tap s))) = false
  /\ filter is_draw (snd (main_loop [tap; evs2] s))
     = [glDrawArrays GL_TRIANGLES 0 6; glDrawArrays GL_TRIANGLES 0 6].
Proof.
  intros Hrun Hesc Hno tap.
  assert (Hopen : shouldClose (window s) = false).
  { unfold loop_state in Hrun. destruct (shouldClose (window s)); congruence. }
  set (s0 := mk_world (window s) (move_camera (window s) (globals s))).
  assert (Hno' : ~ In CloseRequest tap).
  { unfold tap. intros H. apply in_app_or in H. destruct H as [H | [H | []]].
    - apply Hno. exact H.
    - discriminate. }
  pose proof (loop_body_window tap s Hesc) as Hw. fold s0 in Hw.
  pose proof (glfwPollEvents_close_flag tap s0 Hno') as Hflag.
  assert (Hup : keyEscape (window (fst (glfwPollEvents tap s0))) = false).
  { unfold tap. rewrite glfwPollEvents_app.
    destruct (glfwPollEvents evs s0) as [sa ca]. reflexivity. }
  assert (Hrun1 : loop_state (fst (loop_body tap s)) = Running).
  { rewrite Hw. unfold loop_state. rewrite Hflag. simpl. rewrite Hopen. reflexivity. }
  split; [ exact Hrun1 | split; [ rewrite Hw; exact Hup | ] ].
  cbn [main_loop]. rewrite Hopen.
  pose proof (loop_body_one_draw tap s) as Hd1.
  destruct (loop_body tap s) as [s1 c1]. simpl in Hrun1, Hd1.
  unfold loop_state in Hrun1.
  destruct (shouldClose (window s1)); [ discriminate | ].
  pose proof (loop_body_one_draw evs2 s1) as Hd2.
  destruct (loop_body evs2 s1) as [s2 c2]. simpl in *.
  rewrite app_nil_r, filter_app, Hd1, Hd2. reflexivity.
Qed.

Lemma escape_tap_within_a_frame_is_missed_witness :
  loop_state (fst (loop_body [KeyChange KEY_ESCAPE true; KeyChange KEY_ESCAPE false]
                             initial_world)) = Running.
Proof.
  apply (escape_tap_within_a_frame_is_missed [KeyChange KEY_ESCAPE true] [] initial_world).
  - reflexivity.
  - reflexivity.
  - intros [H | []]. discriminate.
Defined.

Lemma idle_frames (n : nat) :
  forall s,
    shouldClose (window s) = false ->
    keyEscape (window s) = false ->
    fst (main_loop (repeat [] n) s)
    = mk_world (window s) (ticks n (window s) (globals s))
    /\ List.length (filter is_draw (snd (main_loop (repeat [] n) s))) = n.
Proof.
  induction n as [| n IH]; intros s Hopen Hesc.
  - simpl. destruct s; split; reflexivity.
  - cbn [repeat main_loop ticks]. rewrite Hopen.
    pose proof (loop_body_one_draw [] s) as Hd.
    assert (Hb : fst (loop_body [] s)
                 = mk_world (window s) (snd (processInput (window s) (globals s)))).
    { rewrite (loop_body_window [] s Hesc). reflexivity. }
    destruct (loop_body [] s) as [s1 c1]. simpl in Hd, Hb. subst s1.
    destruct (IH (mk_world (window s) (snd (processInput (window s) (globals s))))
                 Hopen Hesc) as [H1 H2].
    destruct (main_loop (repeat [] n) _) as [s2 c2]. simpl in *.
    rewrite filter_app, length_app, Hd, H2. split; [ exact H1 | reflexivity ].
Qed.

(** X14.  Movement is per frame, not per second: while the window is
    open, Escape is up and no event arrives, [n] iterations of the loop
    apply the held keys [n] times (the state is that of [n] calls of
    [processInput]) and draw [n] frames. *)
Theorem movement_is_per_frame (n : nat) (s : World) :
  loop_state s = Running ->
  keyEscape (window s) = false ->
  fst (main_loop (repeat [] n) s)
  = mk_world (window s) (ticks n (window s) (globals s))
  /\ List.length (filter is_draw (snd (main_loop (repeat [] n) s))) = n.
Proof.
  intros Hrun Hesc.
  assert (Hopen : shouldClose (window s) = false).
  { unfold loop_state in Hrun. destruct (shouldClose (window s)); congruence. }
  exact (idle_frames n s Hopen Hesc).
Qed.

Lemma movement_is_per_frame_witness :
  let s := mk_world (mk_window false false true false false false) initial_globals in
  List.length (filter is_draw (snd (main_loop (repeat [] 4) s))) = 4%nat.
Proof.
  intros s.
  apply (movement_is_per_frame 4 s); reflexivity.
Defined.

(** X15.  Resizing touches nothing but the viewport: the graphics calls
    made while polling are exactly one [glViewport 0 0 width height] per
    framebuffer-size event, in arrival order, and such an event leaves the
    window flags and every camera variable as they were. *)
Theorem resize_sets_viewport_only (evs : list Event) (s : World) :
  snd (glfwPollEvents evs s) = viewports_of evs
  /\ (forall width height,
        dispatch (FramebufferSize width height) s
        = (s, [glViewport 0 0 width height]))
  /\ (forall width height,
        fst (glfwPollEvents (evs ++ [FramebufferSize width height]) s)
        = fst (glfwPollEvents evs s)).
Proof.
  split; [ apply glfwPollEvents_calls | split; [ reflexivity | ] ].
  intros width height. rewrite glfwPollEvents_app.
  destruct (glfwPollEvents evs s) as [s1 c1]. reflexivity.
Qed.

(** * Further properties of start-up and of the helpers *)

(** ** Shader diagnostics *)

Lemma string_length_append (a b : string) :
  String.length (a ++ b) = (String.length a + String.length b)%nat.
Proof. induction a as [| c a IH]; simpl; [ | rewrite IH ]; reflexivity. Qed.

Lemma substring_length_le (n : nat) :
  forall s, (String.length (substring 0 n s) <= n)%nat.
Proof.
  induction n as [| n IH]; intros s.
  - destruct s; simpl; lia.
  - destruct s as [| c s]; simpl; [ lia | ]. specialize (IH s). lia.
Qed.

Lemma read_info_log_length (log : string) :
  (String.length (read_info_log INFO_LOG_SIZE log) <= 1023)%nat.
Proof. unfold read_info_log. apply (substring_length_le (INFO_LOG_SIZE - 1)). Qed.

Lemma checkCompileErrors_lines
      (compileStatus linkStatus : Z -> bool) (shaderInfoLog programInfoLog : Z -> string)
      (shader : Z) (type : string) :
  (String.length type <= 8)%nat ->
  Forall (fun line => (String.length line <= 35 + 1023)%nat)
         (checkCompileErrors compileStatus linkStatus shaderInfoLog programInfoLog
                             shader type).
Proof.
  intros Htype. unfold checkCompileErrors.
  destruct (String.eqb type "PROGRAM").
  - destruct (linkStatus shader); constructor; [ | constructor ].
    rewrite string_length_append.
    pose proof (read_info_log_length (programInfoLog shader)). simpl String.length. lia.
  - destruct (compileStatus shader); constructor; [ | constructor ].
    rewrite !string_length_append.
    pose proof (read_info_log_length (shaderInfoLog shader)). simpl String.length. lia.
Qed.

(** X16.  A shader that fails to compile or a program that fails to link
    does not stop the constructor: with both source files present it
    returns the handle of the linked program whatever the three statuses
    are, the same handle it returns when nothing is wrong.  The failures
    only show on the diagnostic stream: nothing is written exactly when
    all three statuses are good, at most three lines are written, and no
    line is longer than its 35-character heading plus the 1023 characters
    the log buffer holds. *)
Theorem compile_errors_are_only_logged
        (glCompileShader : ShaderType -> string -> Z) (glLinkProgram : Z -> Z -> Z)
        (compileStatus linkStatus : Z -> bool)
        (shaderInfoLog programInfoLog : Z -> string)
        (fs : FileSystem) (vertexPath fragmentPath vertexCode fragmentCode : string) :
  fs vertexPath = Some vertexCode ->
  fs fragmentPath = Some fragmentCode ->
  let vertexShader := glCompileShader GL_VERTEX_SHADER vertexCode in
  let fragmentShader := glCompileShader GL_FRAGMENT_SHADER fragmentCode in
  let program := glLinkProgram vertexShader fragmentShader in
  exists lines,
    createShaderProgram_cerr glCompileShader glLinkProgram compileStatus linkStatus
      shaderInfoLog programInfoLog fs vertexPath fragmentPath
    = ret (program, lines)
    /\ createShaderProgram glCompileShader glLinkProgram fs vertexPath fragmentPath
       = ret program
    /\ (lines = [] <->
        compileStatus vertexShader = true
        /\ compileStatus fragmentShader = true
        /\ linkStatus program = true)
    /\ (List.length lines <= 3)%nat
    /\ Forall (fun line => (String.length line <= 35 + 1023)%nat) lines.
Proof.
  intros Hv Hf vertexShader fragmentShader program.
  unfold createShaderProgram_cerr, createShaderProgram, compileShader_cerr, compileShader.
  rewrite (readFile_found fs vertexPath vertexCode Hv).
  rewrite (readFile_found fs fragmentPath fragmentCode Hf).
  cbn [bind ret].
  fold vertexShader fragmentShader program.
  eexists. split; [ reflexivity | split; [ reflexivity | ] ].
  split; [ | split ].
  - unfold checkCompileErrors. simpl.
    destruct (compileStatus vertexShader), (compileStatus fragmentShader),
      (linkStatus program); simpl; split;
      try discriminate; try (intros (? & ? & ?); discriminate);
      try (intros _; repeat split); reflexivity.
  - unfold checkCompileErrors. simpl.
    destruct (compileStatus vertexShader), (compileStatus fragmentShader),
      (linkStatus program); simpl; lia.
  - repeat (apply Forall_app; split); apply checkCompileErrors_lines; simpl; lia.
Qed.

Lemma compile_errors_are_only_logged_witness :
  exists lines,
    createShaderProgram_cerr (fun _ _ => 1%Z) (fun _ _ => 3%Z)
      (fun _ => false) (fun _ => true) (fun _ => "0:1: syntax error"%string)
      (fun _ => EmptyString)
      (fun _ => Some "void main() {"%string) VERTEX_SHADER_PATH FRAGMENT_SHADER_PATH
    = ret (3%Z, lines)
    /\ lines <> [].
Proof.
  destruct (compile_errors_are_only_logged (fun _ _ => 1%Z) (fun _ _ => 3%Z)
              (fun _ => false) (fun _ => true) (fun _ => "0:1: syntax error"%string)
              (fun _ => EmptyString)
              (fun _ => Some "void main() {"%string)
              VERTEX_SHADER_PATH FRAGMENT_SHADER_PATH
              "void main() {"%string "void main() {"%string eq_refl eq_refl)
    as (lines & Hrun & _ & Hiff & _).
  exists lines. split; [ exact Hrun | ].
  intros Hnil. apply Hiff in Hnil. destruct Hnil as (H & _). discriminate.
Defined.

(** ** Pending OpenGL errors *)

Lemma checkOpenGLError_loop_drains (context : string) (pending : list N) :
  Forall (fun err => err <> GL_NO_ERROR) pending ->
  forall fuel, (List.length pending < fuel)%nat ->
               checkOpenGLError_loop fuel context pending
               = Some (map (error_line context) pending, []).
Proof.
  induction 1 as [| err rest Herr Hrest IH]; intros fuel Hfuel.
  - destruct fuel; [ simpl in Hfuel; lia | reflexivity ].
  - destruct fuel; [ simpl in Hfuel; lia | ].
    cbn [checkOpenGLError_loop glGetError].
    destruct (N.eqb err GL_NO_ERROR) eqn:E.
    + apply N.eqb_eq in E. contradiction.
    + rewrite IH by (simpl in Hfuel; lia). reflexivity.
Qed.

(** X17.  [checkOpenGLError] ends after one more call of [glGetError]
    than there are recorded errors, prints one line per error, in the
    order they were recorded, each with the context and the error code in
    decimal, and leaves no error recorded. *)
Theorem checkOpenGLError_drains (context : string) (pending : list N) :
  Forall (fun err => err <> GL_NO_ERROR) pending ->
  checkOpenGLError context pending = Some (map (error_line context) pending, []).
Proof.
  intros Hpending. unfold checkOpenGLError.
  apply checkOpenGLError_loop_drains; [ exact Hpending | lia ].
Qed.

Lemma checkOpenGLError_drains_witness :
  checkOpenGLError "draw" [1280%N; 1282%N]
  = Some (["OpenGL Error in draw: 1280"%string; "OpenGL Error in draw: 1282"%string], []).
Proof.
  rewrite (checkOpenGLError_drains "draw" [1280%N; 1282%N]).
  - reflexivity.
  - repeat constructor; discriminate.
Defined.

(** ** The vertex buffer *)

Lemma some_pair_eq (a b c d : R) : a = c -> b = d -> Some [a; b] = Some [c; d].
Proof. intros; subst; reflexivity. Qed.

Lemma drawn_index_cases (i : Z) :
  (0 <= i < 6)%Z -> i = 0%Z \/ i = 1%Z \/ i = 2%Z \/ i = 3%Z \/ i = 4%Z \/ i = 5%Z.
Proof. lia. Qed.

(** X18.  The layout of lines 252-254 matches the array of lines 237-244:
    each of the six vertices the draw call of line 275 uses takes its
    three position components and its two texture coordinates from inside
    the uploaded buffer, the two attributes tile the 20 bytes of a vertex
    without overlap, and the buffer ends with the sixth vertex (a seventh
    would be read past its end).  Every position lies in the plane z = 0
    and its texture coordinate is (x + 0.5, y + 0.5). *)
Theorem drawn_vertices_are_in_the_buffer (i : Z) :
  (0 <= i < 6)%Z ->
  (exists px py,
      fetch squareVertices position_attrib i = Some [px; py; 0]
      /\ fetch squareVertices texcoord_attrib i = Some [px + 0.5; py + 0.5])
  /\ snd (attrib_bytes position_attrib i) = fst (attrib_bytes texcoord_attrib i)
  /\ snd (attrib_bytes texcoord_attrib i) = fst (attrib_bytes position_attrib (i + 1))
  /\ snd (attrib_bytes texcoord_attrib 5) = sizeof_squareVertices
  /\ fetch squareVertices position_attrib 6 = None.
Proof.
  intros Hi.
  split; [ | split; [ | split; [ | split ] ] ].
  - destruct (drawn_index_cases i Hi) as [E | [E | [E | [E | [E | E]]]]]; subst i;
      eexists; eexists; (split; [ reflexivity | ]);
      cbv [fetch attrib_bytes texcoord_attrib position_attrib attrib_size
           attrib_stride attrib_pointer sizeof_float squareVertices];
      simpl; apply some_pair_eq; lra.
  - cbv [attrib_bytes position_attrib texcoord_attrib sizeof_float attrib_size
         attrib_stride attrib_pointer fst snd]. lia.
  - cbv [attrib_bytes position_attrib texcoord_attrib sizeof_float attrib_size
         attrib_stride attrib_pointer fst snd]. lia.
  - reflexivity.
  - reflexivity.
Qed.

Lemma drawn_vertices_are_in_the_buffer_witness :
  fetch squareVertices texcoord_attrib 4 = Some [-0.5 + 0.5; 0.5 + 0.5].
Proof.
  destruct (drawn_vertices_are_in_the_buffer 4) as ((px & py & Hpos & Htex) & _).
  - lia.
  - rewrite Htex. injection Hpos as Hx Hy. rewrite <- Hx, <- Hy. reflexivity.
Defined.

(** * How [main] ends *)

Lemma main_loop_ends_closed (frames : list (list Event)) :
  forall s, Exists (fun evs => In CloseRequest evs) frames ->
            shouldClose (window (fst (main_loop frames s))) = true.
Proof.
  induction frames as [| evs frames IH]; intros s Hex.
  - inversion Hex.
  - cbn [main_loop]. destruct (shouldClose (window s)) eqn:Hs; [ exact Hs | ].
    assert (Hbody : In CloseRequest evs ->
                    shouldClose (window (fst (loop_body evs s))) = true).
    { intros Hin. unfold loop_body.
      destruct (processInput (window s) (globals s)) as [w1 g1].
      pose proof (glfwPollEvents_close_request evs (mk_world w1 g1) Hin) as H.
      destruct (glfwPollEvents evs (mk_world w1 g1)) as [s2 c2]. exact H. }
    destruct (loop_body evs s) as [s1 c1]. simpl in Hbody.
    inversion Hex as [? ? Hin | ? ? Hlater]; subst.
    + rewrite (main_loop_closing frames s1 (Hbody Hin)). exact (Hbody Hin).
    + specialize (IH s1 Hlater).
      destruct (main_loop frames s1) as [s2 c2]. exact IH.
Qed.

(** X21.  The ways [main] ends.  If the window cannot be created or the
    GL loader fails it returns -1 before any shader file is read and
    without a single graphics call of the loop.  Otherwise, with both
    shader files present, its graphics calls are those of the loop run
    from the initial state, and once a close request has been delivered
    in some batch of events it returns 0. *)
Theorem main_outcomes
        (glCompileShader : ShaderType -> string -> Z) (glLinkProgram : Z -> Z -> Z)
        (fs : FileSystem) (frames : list (list Event)) :
  (forall gladLoaded,
      main glCompileShader glLinkProgram false gladLoaded fs frames = (Returned (-1), []))
  /\ main glCompileShader glLinkProgram true false fs frames = (Returned (-1), [])
  /\ (fs VERTEX_SHADER_PATH <> None -> fs FRAGMENT_SHADER_PATH <> None ->
      snd (main glCompileShader glLinkProgram true true fs frames)
      = snd (main_loop frames initial_world)
      /\ (Exists (fun evs => In CloseRequest evs) frames ->
          fst (main glCompileShader glLinkProgram true true fs frames) = Returned 0)).
Proof.
  split; [ reflexivity | split; [ reflexivity | ] ].
  intros Hv Hf. unfold main. simpl negb. cbv iota.
  unfold Shader_new, createShaderProgram.
  destruct (fs VERTEX_SHADER_PATH) as [vertexCode |] eqn:Ev; [ | congruence ].
  destruct (fs FRAGMENT_SHADER_PATH) as [fragmentCode |] eqn:Ef; [ | congruence ].
  rewrite (readFile_found fs _ vertexCode Ev), (readFile_found fs _ fragmentCode Ef).
  cbn [bind ret].
  split.
  - destruct (main_loop frames initial_world) as [s calls]. reflexivity.
  - intros Hex. pose proof (main_loop_ends_closed frames initial_world Hex) as Hc.
    destruct (main_loop frames initial_world) as [s calls]. simpl in Hc.
    simpl. rewrite Hc. reflexivity.
Qed.

Lemma main_outcomes_witness :
  fst (main (fun _ _ => 1%Z) (fun _ _ => 3%Z) true true
            (fun _ => Some "void main() {}"%string)
            [[CursorPos 3 4]; [CloseRequest]; [KeyChange KEY_W true]])
  = Returned 0.
Proof.
  destruct (main_outcomes (fun _ _ => 1%Z) (fun _ _ => 3%Z)
              (fun _ => Some "void main() {}"%string)
              [[CursorPos 3 4]; [CloseRequest]; [KeyChange KEY_W true]])
    as (_ & _ & H).
  destruct H as [_ H]; try discriminate.
  apply H. right. left. left. reflexivity.
Defined.
